(** * Scene-graph facade of model-viewer: Material and TextureInfo setters,
      and the hotspot reducer of the editor

    The development embeds
    - [TextureInfo.setTexture] (scene-graph/texture-info.ts),
    - [Material.setEmissiveFactor], [setAlphaCutoff], [setAlphaMode],
      [setDoubleSided] (scene-graph/material.ts),
    - [addHotspot], [removeHotspot], [updateHotspot], [hotspotsReducer],
      [generateUniqueHotspotName] and the dispatch functions
      (space-opera hotspot_panel/reducer.ts),
    - the texture slots built by the two versions of the [Material]
      constructor, and [toJSON] of the 3DOM base element
    as executable state-passing functions, and states the properties of the
    specification over them.

    JavaScript numbers are IEEE-754 doubles: they are primitive floats here.
    Renderer objects (three.js materials and textures) are mutable objects
    reached through references: they live in a heap indexed by locations.
    The update callback is an opaque function of the host: the state counts
    how many times it has been invoked. *)

From Stdlib Require Import Floats.
From stdpp Require Import gmap strings list fin_maps pretty.

Abbreviation loc := nat.

(** ** JavaScript preliminaries *)

(** [!x] for a number [x] is true exactly for [0], [-0] and [NaN]. *)
Definition falsy (x : float) : bool :=
  (PrimFloat.eqb x 0%float || PrimFloat.is_nan x)%bool.

Inductive Exn : Type :=
| TypeError
| Error (message : string).

Inductive completion (A : Type) : Type :=
| Done (a : A)
| Throw (e : Exn).
Arguments Done {A} a.
Arguments Throw {A} e.

(** ** The renderer's objects (three.js), as far as the facade touches them *)

Module Three.

Inductive TextureEncoding : Type := LinearEncoding | sRGBEncoding.

Inductive Side : Type := FrontSide | BackSide | DoubleSide.

Record Texture : Type := { encoding : TextureEncoding }.

Record Color : Type := { r : float; g : float; b : float }.

(** [color.fromArray(array)]: overwrites the three channels. *)
Definition Color_fromArray (array : float * float * float) (_ : Color) : Color :=
  {| r := array.1.1; g := array.1.2; b := array.2 |}.

Definition Color_toArray (c : Color) : float * float * float := (r c, g c, b c).

Record MeshStandardMaterial : Type := {
  map : option loc;
  metalnessMap : option loc;
  normalMap : option loc;
  aoMap : option loc;
  emissiveMap : option loc;
  emissive : Color;
  alphaTest : float;
  transparent : bool;
  depthWrite : bool;
  side : Side;
  needsUpdate : bool
}.

Definition set_map v m :=
  {| map := v; metalnessMap := metalnessMap m; normalMap := normalMap m;
     aoMap := aoMap m; emissiveMap := emissiveMap m; emissive := emissive m;
     alphaTest := alphaTest m; transparent := transparent m;
     depthWrite := depthWrite m; side := side m; needsUpdate := needsUpdate m |}.
Definition set_metalnessMap v m :=
  {| map := map m; metalnessMap := v; normalMap := normalMap m;
     aoMap := aoMap m; emissiveMap := emissiveMap m; emissive := emissive m;
     alphaTest := alphaTest m; transparent := transparent m;
     depthWrite := depthWrite m; side := side m; needsUpdate := needsUpdate m |}.
Definition set_normalMap v m :=
  {| map := map m; metalnessMap := metalnessMap m; normalMap := v;
     aoMap := aoMap m; emissiveMap := emissiveMap m; emissive := emissive m;
     alphaTest := alphaTest m; transparent := transparent m;
     depthWrite := depthWrite m; side := side m; needsUpdate := needsUpdate m |}.
Definition set_aoMap v m :=
  {| map := map m; metalnessMap := metalnessMap m; normalMap := normalMap m;
     aoMap := v; emissiveMap := emissiveMap m; emissive := emissive m;
     alphaTest := alphaTest m; transparent := transparent m;
     depthWrite := depthWrite m; side := side m; needsUpdate := needsUpdate m |}.
Definition set_emissiveMap v m :=
  {| map := map m; metalnessMap := metalnessMap m; normalMap := normalMap m;
     aoMap := aoMap m; emissiveMap := v; emissive := emissive m;
     alphaTest := alphaTest m; transparent := transparent m;
     depthWrite := depthWrite m; side := side m; needsUpdate := needsUpdate m |}.
Definition set_emissive v m :=
  {| map := map m; metalnessMap := metalnessMap m; normalMap := normalMap m;
     aoMap := aoMap m; emissiveMap := emissiveMap m; emissive := v;
     alphaTest := alphaTest m; transparent := transparent m;
     depthWrite := depthWrite m; side := side m; needsUpdate := needsUpdate m |}.
Definition set_alphaTest v m :=
  {| map := map m; metalnessMap := metalnessMap m; normalMap := normalMap m;
     aoMap := aoMap m; emissiveMap := emissiveMap m; emissive := emissive m;
     alphaTest := v; transparent := transparent m;
     depthWrite := depthWrite m; side := side m; needsUpdate := needsUpdate m |}.
Definition set_transparent v m :=
  {| map := map m; metalnessMap := metalnessMap m; normalMap := normalMap m;
     aoMap := aoMap m; emissiveMap := emissiveMap m; emissive := emissive m;
     alphaTest := alphaTest m; transparent := v;
     depthWrite := depthWrite m; side := side m; needsUpdate := needsUpdate m |}.
Definition set_depthWrite v m :=
  {| map := map m; metalnessMap := metalnessMap m; normalMap := normalMap m;
     aoMap := aoMap m; emissiveMap := emissiveMap m; emissive := emissive m;
     alphaTest := alphaTest m; transparent := transparent m;
     depthWrite := v; side := side m; needsUpdate := needsUpdate m |}.
Definition set_side v m :=
  {| map := map m; metalnessMap := metalnessMap m; normalMap := normalMap m;
     aoMap := aoMap m; emissiveMap := emissiveMap m; emissive := emissive m;
     alphaTest := alphaTest m; transparent := transparent m;
     depthWrite := depthWrite m; side := v; needsUpdate := needsUpdate m |}.
Definition set_needsUpdate v m :=
  {| map := map m; metalnessMap := metalnessMap m; normalMap := normalMap m;
     aoMap := aoMap m; emissiveMap := emissiveMap m; emissive := emissive m;
     alphaTest := alphaTest m; transparent := transparent m;
     depthWrite := depthWrite m; side := side m; needsUpdate := v |}.

(** A freshly constructed [MeshStandardMaterial] and [Texture]. *)
Definition defaultMaterial : MeshStandardMaterial :=
  {| map := None; metalnessMap := None; normalMap := None; aoMap := None;
     emissiveMap := None;
     emissive := {| r := 0%float; g := 0%float; b := 0%float |};
     alphaTest := 0%float; transparent := false; depthWrite := true;
     side := FrontSide; needsUpdate := false |}.

Definition defaultTexture : Texture := {| encoding := LinearEncoding |}.

End Three.

#[export] Instance MeshStandardMaterial_inhabited : Inhabited Three.MeshStandardMaterial :=
  populate Three.defaultMaterial.
#[export] Instance ThreeTexture_inhabited : Inhabited Three.Texture :=
  populate Three.defaultTexture.

(** ** The serializable source document (glTF), material fragment *)

Inductive AlphaMode : Type := OPAQUE | MASK | BLEND.

Definition RGB : Type := float * float * float.

(** An absent property ([undefined]) is [None]. *)
Record GLTFMaterial : Type := {
  emissiveFactor : option RGB;
  alphaCutoff : option float;
  alphaMode : option AlphaMode;
  doubleSided : option bool
}.

(** ** State: the facade object [this], the renderer heap, the callback count

    A location that was never written holds a freshly constructed object. *)

Record State (T : Type) : Type := mkState {
  this : T;
  threeMaterials : gmap loc Three.MeshStandardMaterial;
  threeTextures : gmap loc Three.Texture;
  onUpdateCalls : nat
}.
Arguments mkState {T} _ _ _ _.
Arguments this {T} _.
Arguments threeMaterials {T} _.
Arguments threeTextures {T} _.
Arguments onUpdateCalls {T} _.

(** A method body: it runs on a state and completes normally or throws; the
    mutations done before a throw stay. *)
Definition M (T A : Type) : Type := State T -> completion A * State T.

Section Monad.
Context {T : Type}.

Definition ret {A} (a : A) : M T A := fun s => (Done a, s).

Definition bind {A B} (c : M T A) (k : A -> M T B) : M T B :=
  fun s => match c s with
           | (Done a, s') => k a s'
           | (Throw e, s') => (Throw e, s')
           end.

Definition throw {A} (e : Exn) : M T A := fun s => (Throw e, s).

Definition getThis : M T T := fun s => (Done (this s), s).

Definition setThis (t : T) : M T unit :=
  fun s => (Done tt, mkState t (threeMaterials s) (threeTextures s) (onUpdateCalls s)).

(** Read the object behind a material reference. *)
Definition readMaterial (l : loc) : M T Three.MeshStandardMaterial :=
  fun s => (Done (threeMaterials s !!! l), s).

(** [material.field = v] on the object behind [l]. *)
Definition writeMaterial (l : loc)
    (f : Three.MeshStandardMaterial -> Three.MeshStandardMaterial) : M T unit :=
  fun s => (Done tt,
            mkState (this s) (<[l := f (threeMaterials s !!! l)]> (threeMaterials s))
                    (threeTextures s) (onUpdateCalls s)).

Definition writeTexture (l : loc) (f : Three.Texture -> Three.Texture) : M T unit :=
  fun s => (Done tt,
            mkState (this s) (threeMaterials s)
                    (<[l := f (threeTextures s !!! l)]> (threeTextures s)) (onUpdateCalls s)).

(** [this.onUpdate()] *)
Definition onUpdate : M T unit :=
  fun s => (Done tt,
            mkState (this s) (threeMaterials s) (threeTextures s) (S (onUpdateCalls s))).

End Monad.

(** With these instances [x ← c1; c2] and [c1;; c2] sequence method bodies. *)
#[export] Instance M_ret {T} : MRet (M T) := @ret T.
#[export] Instance M_bind {T} : MBind (M T) := fun A B k c => bind c k.

Section Loops.
Context {T : Type}.

(** The members of a [Set], visited in insertion order. *)
Fixpoint forEach (members : list loc) (body : loc -> M T unit) : M T unit :=
  match members with
  | [] => ret tt
  | l :: rest => body l;; forEach rest body
  end.

(** [for (const x of set) body]: [null] and [undefined] are not iterable. *)
Definition forOf (set : option (list loc)) (body : loc -> M T unit) : M T unit :=
  match set with
  | None => throw TypeError
  | Some members => forEach members body
  end.

(** The same loop around a local variable that the body may reassign. *)
Fixpoint forEachVar {V} (members : list loc) (v : V)
    (body : loc -> V -> M T V) : M T V :=
  match members with
  | [] => ret v
  | l :: rest => v' ← body l v; forEachVar rest v' body
  end.

End Loops.

(** ** Material facade (scene-graph/material.ts) *)

(** The fields of [ThreeDOMElement] that the setters use: the source-document
    fragment, which the setters mutate in place, and the correlated set
    ([null] for a document-only facade). *)
Record Material : Type := {
  sourceObject : GLTFMaterial;
  correlatedObjects : option (list loc)
}.

Definition set_emissiveFactor (v : option RGB) (g : GLTFMaterial) : GLTFMaterial :=
  {| emissiveFactor := v; alphaCutoff := alphaCutoff g;
     alphaMode := alphaMode g; doubleSided := doubleSided g |}.
Definition set_alphaCutoff (v : option float) (g : GLTFMaterial) : GLTFMaterial :=
  {| emissiveFactor := emissiveFactor g; alphaCutoff := v;
     alphaMode := alphaMode g; doubleSided := doubleSided g |}.
Definition set_alphaMode (v : option AlphaMode) (g : GLTFMaterial) : GLTFMaterial :=
  {| emissiveFactor := emissiveFactor g; alphaCutoff := alphaCutoff g;
     alphaMode := v; doubleSided := doubleSided g |}.

(** [(this[$sourceObject] as GLTFMaterial).field = v] *)
Definition writeSource (f : GLTFMaterial -> GLTFMaterial) : M Material unit :=
  t ← getThis;
  setThis {| sourceObject := f (sourceObject t);
             correlatedObjects := correlatedObjects t |}.

(** The constructor, on the fields above: [super(onUpdate, gltfMaterial,
    correlatedMaterials)], then an early return for a document-only facade,
    else the emissive factor of the source fragment defaults to [0,0,0].
    The sub-facades it builds next are read by no setter below. *)
Definition Material_new (gltfMaterial : GLTFMaterial)
    (correlatedMaterials : option (list loc)) : Material :=
  match correlatedMaterials with
  | None => {| sourceObject := gltfMaterial; correlatedObjects := None |}
  | Some _ =>
      {| sourceObject :=
           match emissiveFactor gltfMaterial with
           | None => set_emissiveFactor (Some (0, 0, 0)%float) gltfMaterial
           | Some _ => gltfMaterial
           end;
         correlatedObjects := correlatedMaterials |}
  end.

(** Getters: they read the source fragment. *)
Definition get_emissiveFactor (t : Material) := emissiveFactor (sourceObject t).
Definition get_alphaCutoff (t : Material) := alphaCutoff (sourceObject t).
Definition get_alphaMode (t : Material) := alphaMode (sourceObject t).
Definition get_doubleSided (t : Material) := doubleSided (sourceObject t).

Definition setEmissiveFactor (rgb : RGB) : M Material unit :=
  t ← getThis;
  forOf (correlatedObjects t) (fun material =>
    writeMaterial material (fun m =>
      Three.set_emissive (Three.Color_fromArray rgb (Three.emissive m)) m));;
  writeSource (set_emissiveFactor (Some rgb));;
  onUpdate.

Definition isMASK (a : option AlphaMode) : bool :=
  match a with Some MASK => true | _ => false end.

Definition setAlphaCutoff (value : float) : M Material unit :=
  t ← getThis;
  forOf (correlatedObjects t) (fun material =>
    m ← readMaterial material;
    if (falsy (Three.alphaTest m) && negb (Three.transparent m))%bool then
      writeMaterial material (Three.set_alphaTest (-0.5)%float)
    else if isMASK (get_alphaMode t) then
      writeMaterial material (Three.set_alphaTest value)
    else mret tt);;
  writeSource (set_alphaCutoff (Some value));;
  onUpdate.

Definition setAlphaMode (alphaMode : AlphaMode) : M Material unit :=
  writeSource (set_alphaMode (Some alphaMode));;
  t ← getThis;
  forOf (correlatedObjects t) (fun material =>
    match alphaMode with
    | BLEND =>
        writeMaterial material (Three.set_transparent true);;
        writeMaterial material (Three.set_depthWrite false);;
        onUpdate
    | OPAQUE =>
        writeMaterial material (Three.set_transparent false);;
        writeMaterial material (Three.set_depthWrite true);;
        onUpdate
    | MASK =>
        writeMaterial material (Three.set_transparent false);;
        writeMaterial material (Three.set_depthWrite true);;
        t' ← getThis;
        setAlphaCutoff
          (match get_alphaCutoff t' with
           | Some cutoff => cutoff
           | None => 0.5%float
           end)
    end).

Definition setDoubleSided (doubleSided : bool) : M Material unit :=
  t ← getThis;
  forOf (correlatedObjects t) (fun material =>
    if doubleSided then writeMaterial material (Three.set_side Three.DoubleSide)
    else writeMaterial material (Three.set_side Three.FrontSide));;
  onUpdate.

(** ** TextureInfo facade (scene-graph/texture-info.ts) *)

Module TextureUsage.
Inductive t : Type := Base | Metallic | Normal | Occlusion | Emissive.
End TextureUsage.

(** The [Image] and [Texture] facades, as far as [setTexture] reads them:
    [texture.source[$sourceTexture]] is a renderer texture or [null]. *)
Record Image : Type := { sourceTexture : option loc }.
Record Texture : Type := { source : Image }.

Record TextureInfo : Type := {
  texture : option Texture;
  materials : option (list loc);
  usage : TextureUsage.t
}.

Definition set_encoding (v : Three.TextureEncoding) (_ : Three.Texture) : Three.Texture :=
  {| Three.encoding := v |}.

Definition setTexture (texture : option Texture) : M TextureInfo unit :=
  let threeTexture : option loc :=
    match texture with
    | Some t => sourceTexture (source t)
    | None => None
    end in
  let encoding := Three.sRGBEncoding in
  t ← getThis;
  setThis {| texture := texture; materials := materials t; usage := usage t |};;
  encoding ←
    match materials t with
    | Some members =>
        forEachVar members encoding (fun material encoding =>
          encoding ←
            match usage t with
            | TextureUsage.Base =>
                writeMaterial material (Three.set_map threeTexture);;
                mret encoding
            | TextureUsage.Metallic =>
                writeMaterial material (Three.set_metalnessMap threeTexture);;
                mret Three.LinearEncoding
            | TextureUsage.Normal =>
                writeMaterial material (Three.set_normalMap threeTexture);;
                mret Three.LinearEncoding
            | TextureUsage.Occlusion =>
                writeMaterial material (Three.set_aoMap threeTexture);;
                mret Three.LinearEncoding
            | TextureUsage.Emissive =>
                writeMaterial material (Three.set_emissiveMap threeTexture);;
                mret encoding
            end;
          writeMaterial material (Three.set_needsUpdate true);;
          mret encoding)
    | None => mret encoding
    end;
  match threeTexture with
  | Some l => writeTexture l (set_encoding encoding)
  | None => mret tt
  end;;
  onUpdate.

(** The renderer property that a usage kind writes. *)
Definition slot (u : TextureUsage.t) (m : Three.MeshStandardMaterial) : option loc :=
  match u with
  | TextureUsage.Base => Three.map m
  | TextureUsage.Metallic => Three.metalnessMap m
  | TextureUsage.Normal => Three.normalMap m
  | TextureUsage.Occlusion => Three.aoMap m
  | TextureUsage.Emissive => Three.emissiveMap m
  end.

(** ** Hotspot reducer of the editor (hotspot_panel/reducer.ts) *)

(** The module-level variables of reducer.ts. *)
Record Globals : Type := {
  nextHotspotId : nat;
  hotspotNameSet : gset string
}.

Section Hotspots.
(** Declared in files outside this development: the hotspot record type
    with its [name] property, and [immutableArrayUpdate] of
    utils/reducer_utils.ts. *)
Variable HotspotConfig : Type.
Variable name : HotspotConfig -> string.
Variable immutableArrayUpdate :
  list HotspotConfig -> nat -> HotspotConfig -> list HotspotConfig.

(** An action is [{type, payload}]; the dispatch functions leave the payload
    of ADD, UPDATE and REMOVE optional. *)
Inductive Action : Type :=
| SET_HOTSPOTS (payload : list HotspotConfig)
| CLEAR_HOTSPOTS (payload : list HotspotConfig)
| REMOVE_HOTSPOT (payload : option string)
| UPDATE_HOTSPOT (payload : option HotspotConfig)
| ADD_HOTSPOT (payload : option HotspotConfig)
| OTHER.

(** [hotspots.findIndex(hotspot => hotspot.name === name)], [None] for -1. *)
Fixpoint findIndex (hotspots : list HotspotConfig) (n : option string) : option nat :=
  match hotspots with
  | [] => None
  | h :: rest =>
      if decide (Some (name h) = n) then Some 0
      else S <$> findIndex rest n
  end.

Definition show (n : option string) : string :=
  match n with Some s => s | None => "undefined" end.

Definition findHotspotIndex (hotspots : list HotspotConfig) (n : option string)
    : completion nat :=
  match findIndex hotspots n with
  | None => Throw (Error ("Hotspot name doesn't exist: " +:+ show n))
  | Some index => Done index
  end.

Definition addHotspot (g : Globals) (state : list HotspotConfig)
    (config : option HotspotConfig) : completion (list HotspotConfig) * Globals :=
  match config with
  | None => (Throw TypeError, g)
  | Some config =>
      if decide (name config ∈ hotspotNameSet g) then
        (Throw (Error ("Hotspot name duplicate: " +:+ name config)), g)
      else
        (Done (state ++ [config]),
         {| nextHotspotId := nextHotspotId g;
            hotspotNameSet := hotspotNameSet g ∪ {[ name config ]} |})
  end.

Definition updateHotspot (g : Globals) (state : list HotspotConfig)
    (config : option HotspotConfig) : completion (list HotspotConfig) * Globals :=
  match config with
  | None => (Throw TypeError, g)
  | Some config =>
      match findHotspotIndex state (Some (name config)) with
      | Throw e => (Throw e, g)
      | Done index => (Done (immutableArrayUpdate state index config), g)
      end
  end.

Definition removeHotspot (g : Globals) (state : list HotspotConfig)
    (n : option string) : completion (list HotspotConfig) * Globals :=
  match findHotspotIndex state n with
  | Throw e => (Throw e, g)
  | Done index =>
      (Done (take index state ++ drop (S index) state),
       {| nextHotspotId := nextHotspotId g;
          hotspotNameSet :=
            match n with
            | Some s => hotspotNameSet g ∖ {[ s ]}
            | None => hotspotNameSet g
            end |})
  end.

(** The action creators that also reset the module-level variables. *)
Definition dispatchClearHotspot (g : Globals) : Action * Globals :=
  (CLEAR_HOTSPOTS [], {| nextHotspotId := 1; hotspotNameSet := ∅ |}).

Definition dispatchSetHotspots (g : Globals) (hotspots : list HotspotConfig)
    : Action * Globals :=
  (SET_HOTSPOTS hotspots,
   {| nextHotspotId := 1; hotspotNameSet := list_to_set (name <$> hotspots) |}).

Definition dispatchAddHotspot (config : option HotspotConfig) : Action :=
  ADD_HOTSPOT config.

(** [state] is [None] for [undefined], which the default parameter turns
    into the empty array. *)
Definition hotspotsReducer (g : Globals) (state : option (list HotspotConfig))
    (action : Action) : completion (list HotspotConfig) * Globals :=
  let state := default [] state in
  match action with
  | SET_HOTSPOTS payload => (Done payload, g)
  | CLEAR_HOTSPOTS payload => (Done payload, g)
  | REMOVE_HOTSPOT payload => removeHotspot g state payload
  | UPDATE_HOTSPOT payload => updateHotspot g state payload
  | ADD_HOTSPOT payload => addHotspot g state payload
  | OTHER => (Done state, g)
  end.

End Hotspots.


(** *** Unique hotspot names (reducer.ts, [generateUniqueHotspotName]) *)

(** [(nextHotspotId++).toString()]: the decimal digits of the current
    counter, which is then incremented. *)
Definition takeHotspotId (g : Globals) : string * Globals :=
  (pretty (nextHotspotId g),
   {| nextHotspotId := S (nextHotspotId g); hotspotNameSet := hotspotNameSet g |}).

(** [while (hotspotNameSet.has(name)) name = (nextHotspotId++).toString()],
    with [fuel] bounding the number of turns of the loop; [None] when the
    fuel runs out. *)
Fixpoint whileNameTaken (fuel : nat) (n : string) (g : Globals)
    : option (string * Globals) :=
  if decide (n ∈ hotspotNameSet g) then
    match fuel with
    | 0 => None
    | S fuel => whileNameTaken fuel (takeHotspotId g).1 (takeHotspotId g).2
    end
  else Some (n, g).

Definition generateUniqueHotspotName (fuel : nat) (g : Globals)
    : option (string * Globals) :=
  whileNameTaken fuel (takeHotspotId g).1 (takeHotspotId g).2.

(** ** The texture slots that the Material constructor builds

    After the PBR block and the emissive factor, the constructor reconciles
    the normal, occlusion and emissive slots declared by the source fragment
    with the maps of the correlated renderer materials, and builds one
    [TextureInfo] per slot. The two versions of material.ts do it
    differently; both are given here, from [let {normalTexture,
    occlusionTexture, emissiveTexture} = gltfMaterial] on. *)

(** A glTF texture-info block of the source document. *)
Record GLTFTextureInfo : Type := { index : Z }.

(** The arguments of [new TextureInfo(...)] that the constructor computes:
    the renderer texture, the usage kind and the texture-info block;
    [onUpdate], [gltf] and the correlated material(s) are passed on as they
    are. *)
Record TextureInfoArgs : Type := {
  argTexture : option loc;
  argUsage : TextureUsage.t;
  argInfo : option GLTFTextureInfo
}.

Record MaterialTextureInfos : Type := {
  normalTextureArgs : TextureInfoArgs;
  occlusionTextureArgs : TextureInfoArgs;
  emissiveTextureArgs : TextureInfoArgs
}.

(** *** scene-graph/material.ts: the first correlated material decides *)

(** [if (texture != null && map != null) { textures = map; }
     else { texture = {index: -1}; }], giving the new values of the two
    locals. *)
Definition reconcile (declared : option GLTFTextureInfo) (map : option loc)
    : option loc * option GLTFTextureInfo :=
  match declared, map with
  | Some d, Some m => (Some m, Some d)
  | _, _ => (None, Some {| index := (-1)%Z |})
  end.

(** One turn of the verification loop: the [console.error] messages for one
    correlated material, compared with the maps of the first one. *)
Definition verifyMaps (first member : Three.MeshStandardMaterial) : list string :=
  (if decide (Three.normalMap member = Three.normalMap first) then []
   else ["Normal map differs between homegenous materials"])
  ++ (if decide (Three.aoMap member = Three.aoMap first) then []
      else ["AO map differs between homegenous materials"])
  ++ (if decide (Three.emissiveMap member = Three.emissiveMap first) then []
      else ["Emissive map differs between homegenous materials"]).

(** The result holds the three argument lists and the messages written to
    the console. Destructuring [correlatedMaterials.values().next().value]
    throws on an empty set. *)
Definition constructTextureInfos
    (normalTexture occlusionTexture emissiveTexture : option GLTFTextureInfo)
    (h : gmap loc Three.MeshStandardMaterial) (correlatedMaterials : list loc)
    : completion (MaterialTextureInfos * list string) :=
  match correlatedMaterials with
  | [] => Throw TypeError
  | first :: _ =>
      let m := h !!! first in
      let n := reconcile normalTexture (Three.normalMap m) in
      let o := reconcile occlusionTexture (Three.aoMap m) in
      let e := reconcile emissiveTexture (Three.emissiveMap m) in
      Done ({| normalTextureArgs :=
                 {| argTexture := n.1; argUsage := TextureUsage.Normal;
                    argInfo := n.2 |};
               occlusionTextureArgs :=
                 {| argTexture := o.1; argUsage := TextureUsage.Occlusion;
                    argInfo := o.2 |};
               emissiveTextureArgs :=
                 {| argTexture := e.1; argUsage := TextureUsage.Emissive;
                    argInfo := e.2 |} |},
            concat ((fun l => verifyMaps m (h !!! l)) <$> correlatedMaterials))
  end.

(** *** The other version of material.ts: one set of maps per slot *)

(** [set.add(x)] on a [Set] kept in insertion order. *)
Definition setAdd (x : loc) (set : list loc) : list loc :=
  if decide (x ∈ set) then set else set ++ [x].

(** One slot in one turn of the loop:
    [if (texture != null && map != null) { textures.add(map); }
     else { texture = {index: -1}; }]. *)
Definition collectStep (st : option GLTFTextureInfo * list loc) (map : option loc)
    : option GLTFTextureInfo * list loc :=
  match st.1, map with
  | Some _, Some m => (st.1, setAdd m st.2)
  | _, _ => (Some {| index := (-1)%Z |}, st.2)
  end.

(** [firstValue(set)] is [set.values().next().value]: [undefined] on an
    empty set. *)
Definition firstValue (set : list loc) : option loc := head set.

Definition constructTextureInfosFromSets
    (normalTexture occlusionTexture emissiveTexture : option GLTFTextureInfo)
    (h : gmap loc Three.MeshStandardMaterial) (correlatedMaterials : list loc)
    : MaterialTextureInfos :=
  let '(n, o, e) :=
    foldl (fun '(n, o, e) l =>
             let m := h !!! l in
             (collectStep n (Three.normalMap m),
              collectStep o (Three.aoMap m),
              collectStep e (Three.emissiveMap m)))
          ((normalTexture, []), (occlusionTexture, []), (emissiveTexture, []))
          correlatedMaterials in
  {| normalTextureArgs :=
       {| argTexture := firstValue n.2; argUsage := TextureUsage.Normal;
          argInfo := n.1 |};
     occlusionTextureArgs :=
       {| argTexture := firstValue o.2; argUsage := TextureUsage.Occlusion;
          argInfo := o.1 |};
     emissiveTextureArgs :=
       {| argTexture := firstValue e.2; argUsage := TextureUsage.Emissive;
          argInfo := e.1 |} |}.

(** ** The base element of the 3DOM facade (3dom three-dom-element.ts) *)

Module ThreeDOM.

(** The element: its id, the [name] property of its source object
    ([None] when the source has none) and its correlated objects. *)
Record ThreeDOMElement : Type := {
  id : nat;
  sourceName : option string;
  correlatedObjects : option (list loc)
}.

(** The constructor stores its arguments; [correlatedObjects] defaults to
    [null]. The id comes from [getLocallyUniqueId()]. *)
Definition new (uniqueId : nat) (elementName : option string)
    (correlated : option (list loc)) : ThreeDOMElement :=
  {| id := uniqueId; sourceName := elementName; correlatedObjects := correlated |}.

Definition internalID (e : ThreeDOMElement) : nat := id e.

(** [get name() { return sourceObject.name || null; }]: an absent and an
    empty name both give [null]. *)
Definition name (e : ThreeDOMElement) : option string :=
  match sourceName e with
  | Some n => if decide (n = "") then None else Some n
  | None => None
  end.

Record SerializedThreeDOMElement : Type := {
  serializedId : nat;
  serializedName : option string
}.

(** [toJSON]: [{id}], with [name] added when the getter gives one. *)
Definition toJSON (e : ThreeDOMElement) : SerializedThreeDOMElement :=
  {| serializedId := id e; serializedName := name e |}.

End ThreeDOM.
(** * Auxiliary definitions for the proofs *)

Ltac unfold_bind :=
  unfold mbind, M_bind, mret, M_ret, bind, ret, throw, getThis, setThis, onUpdate.

Ltac unfold_M :=
  unfold_bind; unfold readMaterial, writeMaterial, writeTexture.

(** The renderer heap after [f] was applied to each member in turn. *)
Definition writeAll (f : Three.MeshStandardMaterial -> Three.MeshStandardMaterial)
    (members : list loc) (h : gmap loc Three.MeshStandardMaterial)
    : gmap loc Three.MeshStandardMaterial :=
  foldl (fun h l => <[l := f (h !!! l)]> h) h members.

(** What one iteration of the loop of [setAlphaCutoff] does to a renderer
    object, [mask] telling whether the facade's alpha mode is ['MASK']. *)
Definition applyCutoff (mask : bool) (value : float)
    (m : Three.MeshStandardMaterial) : Three.MeshStandardMaterial :=
  if (falsy (Three.alphaTest m) && negb (Three.transparent m))%bool then
    Three.set_alphaTest (-0.5)%float m
  else if mask then Three.set_alphaTest value m
  else m.


(** [this.alphaCutoff !== undefined ? this.alphaCutoff : 0.5] *)
Definition cutoffOrDefault (c : option float) : float :=
  match c with Some cutoff => cutoff | None => 0.5%float end.

(** Two states that an observer of the facade, of the source document and of
    the renderer objects cannot tell apart; the count of callback
    invocations is not part of it. *)
Definition sameObservableState {T} (s1 s2 : State T) : Prop :=
  this s1 = this s2
  ∧ (∀ l, threeMaterials s1 !!! l = threeMaterials s2 !!! l)
  ∧ (∀ l, threeTextures s1 !!! l = threeTextures s2 !!! l).

(** ** Sample inputs *)

(** A source fragment with none of the optional properties. *)
Definition blankSource : GLTFMaterial :=
  {| emissiveFactor := None; alphaCutoff := None; alphaMode := None;
     doubleSided := None |}.

(** A material facade over [n] freshly constructed renderer materials, at
    locations [0 .. n-1]. *)
Definition freshMaterial (n : nat) : State Material :=
  mkState (Material_new blankSource (Some (seq 0 n))) ∅ ∅ 0.

(** A material whose source says ['MASK'], over one fresh renderer material. *)
Definition maskMaterial : State Material :=
  mkState {| sourceObject := set_alphaMode (Some MASK) blankSource;
             correlatedObjects := Some [0] |} ∅ ∅ 0.

(** A document-only material facade: constructed without correlated objects. *)
Definition documentOnlyMaterial (gltfMaterial : GLTFMaterial)
    (h : gmap loc Three.MeshStandardMaterial) (t : gmap loc Three.Texture)
    (calls : nat) : State Material :=
  mkState (Material_new gltfMaterial None) h t calls.

(** [material.<slot of u> = v] *)
Definition assignSlot (u : TextureUsage.t) (v : option loc)
    (m : Three.MeshStandardMaterial) : Three.MeshStandardMaterial :=
  match u with
  | TextureUsage.Base => Three.set_map v m
  | TextureUsage.Metallic => Three.set_metalnessMap v m
  | TextureUsage.Normal => Three.set_normalMap v m
  | TextureUsage.Occlusion => Three.set_aoMap v m
  | TextureUsage.Emissive => Three.set_emissiveMap v m
  end.

(** The value of the local variable [encoding] of [setTexture] after one
    pass of its loop body. *)
Definition encodingAfter (u : TextureUsage.t) (encoding : Three.TextureEncoding)
    : Three.TextureEncoding :=
  match u with
  | TextureUsage.Metallic | TextureUsage.Normal | TextureUsage.Occlusion =>
      Three.LinearEncoding
  | TextureUsage.Base | TextureUsage.Emissive => encoding
  end.

(** A texture facade over the renderer texture at location [a]. *)
Definition textureAt (a : loc) : Texture :=
  {| source := {| sourceTexture := Some a |} |}.

(** A metallic-roughness slot whose correlated material set is empty. *)
Definition emptyMetallicInfo : State TextureInfo :=
  mkState {| texture := None; materials := Some [];
             usage := TextureUsage.Metallic |} ∅ ∅ 0.

(** A normal-map slot over two fresh renderer materials. *)
Definition normalInfo : State TextureInfo :=
  mkState {| texture := None; materials := Some [0; 1];
             usage := TextureUsage.Normal |} ∅ ∅ 0.

(** A normal-map slot over two renderer materials, the first of which has a
    normal map assigned and the second none. *)
Definition mappedNormalInfo : State TextureInfo :=
  mkState {| texture := Some (textureAt 5); materials := Some [0; 1];
             usage := TextureUsage.Normal |}
          {[ 0 := Three.set_normalMap (Some 5) Three.defaultMaterial ]} ∅ 0.

(** A document-only normal-map slot. *)
Definition documentOnlyNormalInfo : State TextureInfo :=
  mkState {| texture := None; materials := None;
             usage := TextureUsage.Normal |} ∅ ∅ 0.

(** The encoding that [setTexture] stamps onto the renderer texture: the
    local variable starts as sRGB and only the loop body reassigns it. *)
Definition stampedEncoding (ms : option (list loc)) (u : TextureUsage.t)
    : Three.TextureEncoding :=
  match ms with
  | Some (_ :: _) => encodingAfter u Three.sRGBEncoding
  | Some [] | None => Three.sRGBEncoding
  end.

(** [texture != null ? texture.source[$sourceTexture] : null] *)
Definition threeTextureOf (texture : option Texture) : option loc :=
  match texture with
  | Some t => sourceTexture (source t)
  | None => None
  end.

(** A hotspot record with a name and an annotation, and the array update by
    copy, to run the reducer on sample inputs. *)
Record NamedHotspot : Type := {
  hotspotName : string;
  annotation : option string
}.

Definition copyWith (l : list NamedHotspot) (i : nat) (x : NamedHotspot)
    : list NamedHotspot := <[i := x]> l.

Definition hotspotA : NamedHotspot :=
  {| hotspotName := "a"; annotation := None |}.

(** The module-level variables when reducer.ts is loaded. *)
Definition initialGlobals : Globals :=
  {| nextHotspotId := 1; hotspotNameSet := ∅ |}.

(** ** Auxiliary definitions for the further properties *)

(** The module's name set holds exactly the names of the hotspots of the
    array, and no two hotspots of the array share a name. *)
Definition hotspotsInSync {HotspotConfig : Type} (name : HotspotConfig -> string)
    (state : list HotspotConfig) (g : Globals) : Prop :=
  hotspotNameSet g = list_to_set (name <$> state) ∧ NoDup (name <$> state).

Definition hotspotB : NamedHotspot :=
  {| hotspotName := "b"; annotation := Some "second" |}.

(** The name set after hotspots "1" and "2" were added. *)
Definition globalsWith12 : Globals :=
  {| nextHotspotId := 1; hotspotNameSet := {[ "1"; "2" ]} |}.

(** [alphaMode === 'BLEND'] *)
Definition isBLEND (a : AlphaMode) : bool :=
  match a with BLEND => true | OPAQUE | MASK => false end.

(** From [s] to [s'] the renderer object at [l], every renderer texture and
    the facade's correlated set are left as they were. *)
Definition leavesAlone (l : loc) (s s' : State Material) : Prop :=
  threeMaterials s' !!! l = threeMaterials s !!! l
  ∧ threeTextures s' = threeTextures s
  ∧ correlatedObjects (this s') = correlatedObjects (this s).

(** A material in mode ['MASK'] over two renderer objects that already have
    an alpha test threshold. *)
Definition maskedPair : State Material :=
  mkState {| sourceObject := set_alphaMode (Some MASK) blankSource;
             correlatedObjects := Some [0; 1] |}
          {[ 0 := Three.set_alphaTest 0.5%float Three.defaultMaterial;
             1 := Three.set_alphaTest 0.25%float Three.defaultMaterial ]} ∅ 0.

(** The same renderer objects under a material in mode ['BLEND']. *)
Definition blendedPair : State Material :=
  mkState {| sourceObject := set_alphaMode (Some BLEND) blankSource;
             correlatedObjects := Some [0; 1] |}
          {[ 0 := Three.set_alphaTest 0.5%float Three.defaultMaterial;
             1 := Three.set_alphaTest 0.25%float Three.defaultMaterial ]} ∅ 0.

(** A document-only material facade over a blank source fragment. *)
Definition documentOnlyBlank : State Material :=
  documentOnlyMaterial blankSource ∅ ∅ 0.

(** A base-color slot over two renderer materials that both carry a normal
    map (the renderer texture at 9) and no base-color map. *)
Definition baseInfoOverNormalMapped : State TextureInfo :=
  mkState {| texture := None; materials := Some [0; 1];
             usage := TextureUsage.Base |}
          {[ 0 := Three.set_normalMap (Some 9) Three.defaultMaterial;
             1 := Three.set_normalMap (Some 9) Three.defaultMaterial ]}
          ∅ 0.

(** The three usage kinds whose slots the Material constructor builds. *)
Definition isMaterialSlot (u : TextureUsage.t) : bool :=
  match u with
  | TextureUsage.Normal | TextureUsage.Occlusion | TextureUsage.Emissive => true
  | TextureUsage.Base | TextureUsage.Metallic => false
  end.

(** The arguments built for the slot of usage kind [u], and the block that
    the source fragment declares for it (for the three kinds above). *)
Definition slotArgs (r : MaterialTextureInfos) (u : TextureUsage.t) : TextureInfoArgs :=
  match u with
  | TextureUsage.Normal => normalTextureArgs r
  | TextureUsage.Occlusion => occlusionTextureArgs r
  | _ => emissiveTextureArgs r
  end.

Definition declaredSlot (normalTexture occlusionTexture emissiveTexture :
                           option GLTFTextureInfo) (u : TextureUsage.t)
    : option GLTFTextureInfo :=
  match u with
  | TextureUsage.Normal => normalTexture
  | TextureUsage.Occlusion => occlusionTexture
  | _ => emissiveTexture
  end.

Definition noTexture : GLTFTextureInfo := {| index := (-1)%Z |}.

(** Two renderer materials: the first without maps, the second with the
    renderer texture 9 as normal map. *)
Definition secondHasNormalMap : gmap loc Three.MeshStandardMaterial :=
  {[ 1 := Three.set_normalMap (Some 9) Three.defaultMaterial ]}.

(** Two renderer materials that share the renderer texture 9 as normal map. *)
Definition bothHaveNormalMap : gmap loc Three.MeshStandardMaterial :=
  {[ 0 := Three.set_normalMap (Some 9) Three.defaultMaterial;
     1 := Three.set_normalMap (Some 9) Three.defaultMaterial ]}.
(** * Properties *)

(** ** Loops *)

Section LoopFacts.
Context {T : Type}.

(** A loop whose body always completes and steps an invariant indexed by
    the number of iterations done. *)
Lemma forEach_invariant (I : nat -> State T -> Prop) (body : loc -> M T unit)
    (members : list loc) :
  (∀ n l s, l ∈ members → I n s → ∃ s', body l s = (Done tt, s') ∧ I (S n) s') →
  ∀ s, I 0 s →
  ∃ s', forEach members body s = (Done tt, s') ∧ I (length members) s'.
Proof.
  revert I. induction members as [|l rest IH]; intros I Hbody s HI.
  - exists s. split; [reflexivity | exact HI].
  - destruct (Hbody 0 l s) as (s1 & Hrun & HI1); [left | exact HI |].
    destruct (IH (fun n => I (S n))) with (s := s1) as (s2 & Hrest & HI2).
    + intros n l' s' Hin. apply Hbody. by right.
    + exact HI1.
    + exists s2. split; [| exact HI2].
      simpl. unfold_M. rewrite Hrun. exact Hrest.
Qed.

Lemma forEach_writeMaterial f (members : list loc) (s : State T) :
  forEach members (fun l => writeMaterial l f) s
  = (Done tt, mkState (this s) (writeAll f members (threeMaterials s))
                      (threeTextures s) (onUpdateCalls s)).
Proof.
  revert s. induction members as [|l rest IH]; intros s.
  - by destruct s.
  - simpl. unfold_M. simpl. unfold writeMaterial in IH. by rewrite IH.
Qed.

End LoopFacts.

Lemma writeAll_lookup f (members : list loc) h (l : loc) :
  (∀ m, f (f m) = f m) →
  writeAll f members h !!! l
  = if decide (l ∈ members) then f (h !!! l) else h !!! l.
Proof.
  intros Hf. revert h. induction members as [|a rest IH]; intros h.
  - simpl. destruct (decide (l ∈ [])) as [Hin|]; [by apply elem_of_nil in Hin | done].
  - simpl. rewrite IH. destruct (decide (l = a)) as [->|Hne].
    + rewrite lookup_total_insert_eq, Hf.
      destruct (decide (a ∈ a :: rest)) as [_|Hnin]; [by case_decide|].
      exfalso. apply Hnin. left.
    + rewrite lookup_total_insert_ne by done.
      destruct (decide (l ∈ rest)) as [Hin|Hnin];
        destruct (decide (l ∈ a :: rest)) as [Hin'|Hnin']; try done.
      * exfalso. apply Hnin'. by right.
      * apply elem_of_cons in Hin' as [?|?]; done.
Qed.

(** ** Running a method body step by step *)

Section Run.
Context {T : Type}.

Lemma run_bind {A B} (c : M T A) (k : A -> M T B) (s : State T) :
  (c ≫= k) s
  = match c s with
    | (Done a, s') => k a s'
    | (Throw e, s') => (Throw e, s')
    end.
Proof. reflexivity. Qed.

Lemma run_getThis {B} (k : T -> M T B) (s : State T) :
  (getThis ≫= k) s = k (this s) s.
Proof. reflexivity. Qed.

Lemma run_setThis {B} (t : T) (k : unit -> M T B) (s : State T) :
  (setThis t ≫= k) s
  = k tt (mkState t (threeMaterials s) (threeTextures s) (onUpdateCalls s)).
Proof. reflexivity. Qed.

Lemma run_writeMaterial {B} l f (k : unit -> M T B) (s : State T) :
  (writeMaterial l f ≫= k) s
  = k tt (mkState (this s) (<[l := f (threeMaterials s !!! l)]> (threeMaterials s))
                  (threeTextures s) (onUpdateCalls s)).
Proof. reflexivity. Qed.

Lemma run_forOf_null (body : loc -> M T unit) (s : State T) :
  forOf None body s = (Throw TypeError, s).
Proof. reflexivity. Qed.

End Run.

Lemma run_writeSource {B} f (k : unit -> M Material B) (s : State Material) :
  (writeSource f ≫= k) s
  = k tt (mkState {| sourceObject := f (sourceObject (this s));
                     correlatedObjects := correlatedObjects (this s) |}
                  (threeMaterials s) (threeTextures s) (onUpdateCalls s)).
Proof. reflexivity. Qed.

(** ** Material.setEmissiveFactor *)

Lemma setEmissiveFactor_run (s : State Material) (members : list loc) (c : RGB) :
  correlatedObjects (this s) = Some members →
  setEmissiveFactor c s
  = (Done tt,
     mkState {| sourceObject := set_emissiveFactor (Some c) (sourceObject (this s));
                correlatedObjects := Some members |}
             (writeAll (fun m => Three.set_emissive
                                   (Three.Color_fromArray c (Three.emissive m)) m)
                       members (threeMaterials s))
             (threeTextures s) (S (onUpdateCalls s))).
Proof.
  intros Hset. unfold setEmissiveFactor.
  rewrite run_getThis, run_bind, Hset. cbn [forOf].
  rewrite forEach_writeMaterial, run_writeSource. cbn. by rewrite Hset.
Qed.

(** C2: on a material with a non-null correlated set, [setEmissiveFactor c]
    completes, leaves every correlated renderer object with emissive value
    [c], and the facade's [emissiveFactor] reads [c]. *)
Theorem setEmissiveFactor_correlated (s : State Material) (members : list loc) (c : RGB) :
  correlatedObjects (this s) = Some members →
  (setEmissiveFactor c s).1 = Done tt
  ∧ (∀ O, O ∈ members →
       Three.Color_toArray
         (Three.emissive (threeMaterials (setEmissiveFactor c s).2 !!! O)) = c)
  ∧ get_emissiveFactor (this (setEmissiveFactor c s).2) = Some c.
Proof.
  intros Hset. rewrite (setEmissiveFactor_run s members c Hset). simpl.
  split; [done|]. split; [|done].
  intros O HO. rewrite writeAll_lookup by done.
  rewrite decide_True by done. by destruct c as [[x y] z].
Qed.

Lemma setEmissiveFactor_correlated_witness :
  (setEmissiveFactor (1, 0.5, 0)%float (freshMaterial 2)).1 = Done tt
  ∧ (∀ O, O ∈ [0; 1] →
       Three.Color_toArray
         (Three.emissive
            (threeMaterials (setEmissiveFactor (1, 0.5, 0)%float (freshMaterial 2)).2
             !!! O))
       = (1, 0.5, 0)%float)
  ∧ get_emissiveFactor (this (setEmissiveFactor (1, 0.5, 0)%float (freshMaterial 2)).2)
    = Some (1, 0.5, 0)%float.
Proof.
  apply (setEmissiveFactor_correlated (freshMaterial 2) [0; 1] (1, 0.5, 0)%float).
  reflexivity.
Defined.

(** ** Material.setDoubleSided *)

Lemma setDoubleSided_run (s : State Material) (members : list loc) (flag : bool) :
  correlatedObjects (this s) = Some members →
  setDoubleSided flag s
  = (Done tt,
     mkState (this s)
             (writeAll (Three.set_side (if flag then Three.DoubleSide else Three.FrontSide))
                       members (threeMaterials s))
             (threeTextures s) (S (onUpdateCalls s))).
Proof.
  intros Hset. unfold setDoubleSided. rewrite run_getThis, run_bind, Hset. simpl.
  destruct flag; by rewrite forEach_writeMaterial.
Qed.

(** C3: [setDoubleSided flag] on a material with correlated objects completes,
    gives every correlated renderer object the side that [flag] names and
    fires the update callback once; the source document is left as it was,
    so the [doubleSided] getter still reads the old value. *)
Theorem setDoubleSided_not_persisted (s : State Material) (members : list loc)
    (flag : bool) :
  correlatedObjects (this s) = Some members →
  (setDoubleSided flag s).1 = Done tt
  ∧ (∀ O, O ∈ members →
       Three.side (threeMaterials (setDoubleSided flag s).2 !!! O)
       = if flag then Three.DoubleSide else Three.FrontSide)
  ∧ onUpdateCalls (setDoubleSided flag s).2 = S (onUpdateCalls s)
  ∧ get_doubleSided (this (setDoubleSided flag s).2) = get_doubleSided (this s).
Proof.
  intros Hset. rewrite (setDoubleSided_run s members flag Hset). simpl.
  repeat split.
  intros O HO. rewrite writeAll_lookup by done. by rewrite decide_True.
Qed.

Lemma setDoubleSided_not_persisted_witness :
  (setDoubleSided true (freshMaterial 2)).1 = Done tt
  ∧ (∀ O, O ∈ [0; 1] →
       Three.side (threeMaterials (setDoubleSided true (freshMaterial 2)).2 !!! O)
       = Three.DoubleSide)
  ∧ onUpdateCalls (setDoubleSided true (freshMaterial 2)).2 = 1
  ∧ get_doubleSided (this (setDoubleSided true (freshMaterial 2)).2) = None.
Proof.
  apply (setDoubleSided_not_persisted (freshMaterial 2) [0; 1] true).
  reflexivity.
Defined.

(** ** Material.setAlphaCutoff *)

Lemma writeAll_proper f (members : list loc) h1 h2 :
  (∀ l, h1 !!! l = h2 !!! l) →
  ∀ l, writeAll f members h1 !!! l = writeAll f members h2 !!! l.
Proof.
  revert h1 h2. induction members as [|a rest IH]; intros h1 h2 Heq l; [apply Heq|].
  simpl. apply IH. intros l'. rewrite Heq.
  destruct (decide (a = l')) as [->|Hne].
  - by rewrite !lookup_total_insert_eq.
  - by rewrite !lookup_total_insert_ne.
Qed.

Lemma setAlphaCutoff_loop (t : Material) (value : float) (members : list loc)
    (s : State Material) :
  ∃ h', forEach members (fun material =>
          m ← readMaterial material;
          if (falsy (Three.alphaTest m) && negb (Three.transparent m))%bool then
            writeMaterial material (Three.set_alphaTest (-0.5)%float)
          else if isMASK (get_alphaMode t) then
            writeMaterial material (Three.set_alphaTest value)
          else mret tt) s
        = (Done tt, mkState (this s) h' (threeTextures s) (onUpdateCalls s))
      ∧ ∀ l, h' !!! l
             = writeAll (applyCutoff (isMASK (get_alphaMode t)) value) members
                        (threeMaterials s) !!! l.
Proof.
  revert s. induction members as [|a rest IH]; intros s.
  - exists (threeMaterials s). by destruct s.
  - cbn [forEach]. rewrite run_bind.
    set (h1 := <[a := applyCutoff (isMASK (get_alphaMode t)) value (threeMaterials s !!! a)]>
                 (threeMaterials s)).
    assert (∃ h0, (∀ l, h0 !!! l = h1 !!! l) ∧
              (m ← readMaterial a;
               if (falsy (Three.alphaTest m) && negb (Three.transparent m))%bool then
                 writeMaterial a (Three.set_alphaTest (-0.5)%float)
               else if isMASK (get_alphaMode t) then
                 writeMaterial a (Three.set_alphaTest value)
               else mret tt) s
              = (Done tt, mkState (this s) h0 (threeTextures s) (onUpdateCalls s)))
      as (h0 & Hh0 & ->).
    { subst h1. unfold applyCutoff. unfold_M.
      destruct (falsy (Three.alphaTest (threeMaterials s !!! a))
                && negb (Three.transparent (threeMaterials s !!! a)))%bool;
        [eexists; split; [|reflexivity]; done|].
      destruct (isMASK (get_alphaMode t)); [eexists; split; [|reflexivity]; done|].
      exists (threeMaterials s). split; [|by destruct s].
      intros l. destruct (decide (a = l)) as [->|Hne].
      - by rewrite lookup_total_insert_eq.
      - by rewrite lookup_total_insert_ne. }
    destruct (IH (mkState (this s) h0 (threeTextures s) (onUpdateCalls s)))
      as (h' & -> & Hh').
    exists h'. split; [done|]. intros l. rewrite Hh'. simpl.
    by apply writeAll_proper.
Qed.

Lemma setAlphaCutoff_run (s : State Material) (members : list loc) (value : float) :
  correlatedObjects (this s) = Some members →
  ∃ h', setAlphaCutoff value s
        = (Done tt,
           mkState {| sourceObject := set_alphaCutoff (Some value) (sourceObject (this s));
                      correlatedObjects := Some members |}
                   h' (threeTextures s) (S (onUpdateCalls s)))
      ∧ ∀ l, h' !!! l
             = writeAll (applyCutoff (isMASK (get_alphaMode (this s))) value) members
                        (threeMaterials s) !!! l.
Proof.
  intros Hset. unfold setAlphaCutoff. rewrite run_getThis, run_bind, Hset.
  cbn [forOf].
  destruct (setAlphaCutoff_loop (this s) value members s) as (h' & -> & Hh').
  exists h'. split; [|done]. unfold writeSource. unfold_bind. simpl. by rewrite Hset.
Qed.

(** ** Material.setAlphaMode: how often the callback fires *)

Lemma setAlphaMode_completes (s : State Material) (members : list loc)
    (mode : AlphaMode) :
  correlatedObjects (this s) = Some members →
  ∃ s', setAlphaMode mode s = (Done tt, s')
        ∧ correlatedObjects (this s') = Some members
        ∧ get_alphaMode (this s') = Some mode
        ∧ onUpdateCalls s' = length members + onUpdateCalls s.
Proof.
  intros Hset. unfold setAlphaMode. rewrite run_bind.
  unfold writeSource at 1. rewrite run_getThis. unfold setThis at 1.
  rewrite run_getThis. cbn [this correlatedObjects]. rewrite Hset. cbn [forOf].
  match goal with |- context [forEach members ?body ?s0] =>
    apply (forEach_invariant
             (fun n s' => correlatedObjects (this s') = Some members
                          ∧ get_alphaMode (this s') = Some mode
                          ∧ onUpdateCalls s' = n + onUpdateCalls s)
             body members)
  end; [|done].
  intros n l s1 _ (Hset1 & Hmode1 & Hcalls1). destruct mode.
  - eexists. split; [reflexivity|]. simpl. repeat split; [done | done | lia].
  - rewrite !run_writeMaterial, run_getThis.
    match goal with |- context [setAlphaCutoff ?v ?s2] =>
      destruct (setAlphaCutoff_run s2 members v) as (h' & -> & _)
    end; [done|].
    eexists. split; [reflexivity|]. simpl. repeat split; [done | lia].
  - eexists. split; [reflexivity|]. simpl. repeat split; [done | done | lia].
Qed.

(** C5: [setAlphaMode] fires the update callback once per correlated renderer
    object, inside the loop: the count grows by the size of the correlated
    set, which no constant bounds. *)
Theorem setAlphaMode_callback_count (s : State Material) (members : list loc)
    (mode : AlphaMode) :
  correlatedObjects (this s) = Some members →
  (setAlphaMode mode s).1 = Done tt
  ∧ onUpdateCalls (setAlphaMode mode s).2 = length members + onUpdateCalls s.
Proof.
  intros Hset.
  by destruct (setAlphaMode_completes s members mode Hset) as (s' & -> & _ & _ & ?).
Qed.

Lemma setAlphaMode_callback_count_witness :
  (setAlphaMode BLEND (freshMaterial 3)).1 = Done tt
  ∧ onUpdateCalls (setAlphaMode BLEND (freshMaterial 3)).2 = 3.
Proof.
  apply (setAlphaMode_callback_count (freshMaterial 3) [0; 1; 2] BLEND).
  reflexivity.
Defined.

(** ** Material.setAlphaMode('MASK') *)

Lemma writeAll_lookup_NoDup f (members : list loc) h (l : loc) :
  NoDup members →
  writeAll f members h !!! l
  = if decide (l ∈ members) then f (h !!! l) else h !!! l.
Proof.
  intros Hnd. revert h. induction Hnd as [|a rest Hnin Hnd IH]; intros h.
  - simpl. destruct (decide (l ∈ [])) as [Hin|]; [by apply elem_of_nil in Hin | done].
  - simpl. rewrite IH. destruct (decide (l = a)) as [->|Hne].
    + rewrite decide_False by done. rewrite lookup_total_insert_eq.
      destruct (decide (a ∈ a :: rest)) as [_|Hnin']; [done|].
      exfalso. apply Hnin'. left.
    + rewrite lookup_total_insert_ne by done.
      destruct (decide (l ∈ rest)) as [Hin|Hnin'];
        destruct (decide (l ∈ a :: rest)) as [Hin'|Hnin'']; try done.
      * exfalso. apply Hnin''. by right.
      * apply elem_of_cons in Hin' as [?|?]; done.
Qed.

Lemma applyCutoff_alphaTest (value : float) (m : Three.MeshStandardMaterial) :
  Three.alphaTest (applyCutoff true value m)
  = if (falsy (Three.alphaTest m) && negb (Three.transparent m))%bool
    then (-0.5)%float else value.
Proof. unfold applyCutoff. by destruct (_ && _)%bool. Qed.

Lemma setAlphaMode_MASK_single_run (s : State Material) (O : loc) :
  correlatedObjects (this s) = Some [O] →
  falsy (Three.alphaTest (threeMaterials s !!! O)) = true →
  ∃ h', setAlphaMode MASK s
        = (Done tt,
           mkState {| sourceObject :=
                        set_alphaCutoff
                          (Some (cutoffOrDefault (get_alphaCutoff (this s))))
                          (set_alphaMode (Some MASK) (sourceObject (this s)));
                      correlatedObjects := Some [O] |}
                   h' (threeTextures s) (S (onUpdateCalls s)))
      ∧ Three.alphaTest (h' !!! O) = (-0.5)%float.
Proof.
  intros Hset Hoff. unfold setAlphaMode.
  rewrite run_writeSource, run_getThis. cbn [this correlatedObjects].
  rewrite Hset. cbn [forOf forEach].
  rewrite run_bind, !run_writeMaterial, run_getThis.
  match goal with |- context [setAlphaCutoff ?v ?s2] =>
    destruct (setAlphaCutoff_run s2 [O] v) as (h' & -> & Hh')
  end; [done|].
  exists h'. split; [done|]. rewrite Hh'. cbn.
  rewrite !lookup_total_insert_eq, applyCutoff_alphaTest. cbn.
  by rewrite Hoff.
Qed.

(** C1: on a material with a single correlated renderer object whose alpha
    test is off (the renderer's default), and with no cutoff in the source
    document, [setAlphaMode('MASK')] records mode ['MASK'] and cutoff 0.5 in
    the source document but leaves the object's alpha-test threshold at
    -0.5, not at 0.5. *)
Theorem setAlphaMode_MASK_single_object (s : State Material) (O : loc) :
  correlatedObjects (this s) = Some [O] →
  get_alphaCutoff (this s) = None →
  falsy (Three.alphaTest (threeMaterials s !!! O)) = true →
  (setAlphaMode MASK s).1 = Done tt
  ∧ get_alphaMode (this (setAlphaMode MASK s).2) = Some MASK
  ∧ get_alphaCutoff (this (setAlphaMode MASK s).2) = Some 0.5%float
  ∧ Three.alphaTest (threeMaterials (setAlphaMode MASK s).2 !!! O) = (-0.5)%float.
Proof.
  intros Hset Hcut Hoff.
  destruct (setAlphaMode_MASK_single_run s O Hset Hoff) as (h' & -> & Hh').
  rewrite Hcut. by cbn.
Qed.

Lemma setAlphaMode_MASK_single_object_witness :
  (setAlphaMode MASK (freshMaterial 1)).1 = Done tt
  ∧ get_alphaMode (this (setAlphaMode MASK (freshMaterial 1)).2) = Some MASK
  ∧ get_alphaCutoff (this (setAlphaMode MASK (freshMaterial 1)).2) = Some 0.5%float
  ∧ Three.alphaTest (threeMaterials (setAlphaMode MASK (freshMaterial 1)).2 !!! 0)
    = (-0.5)%float.
Proof.
  apply (setAlphaMode_MASK_single_object (freshMaterial 1) 0); reflexivity.
Defined.

(** Setting the two flags on one object leaves every threshold alone. *)
Lemma alphaTest_after_flags (h : gmap loc Three.MeshStandardMaterial) (l O : loc)
    (b1 b2 : bool) :
  Three.alphaTest
    (<[l := Three.set_depthWrite b2
              (<[l := Three.set_transparent b1 (h !!! l)]> h !!! l)]>
       (<[l := Three.set_transparent b1 (h !!! l)]> h) !!! O)
  = Three.alphaTest (h !!! O).
Proof.
  destruct (decide (l = O)) as [->|Hne].
  - by rewrite !lookup_total_insert_eq.
  - by rewrite !lookup_total_insert_ne.
Qed.

(** With two or more correlated renderer objects the second pass of the
    outer loop finds every threshold already set, and the cutoff lands. *)
Lemma setAlphaMode_MASK_several_objects (s : State Material) (members : list loc) :
  correlatedObjects (this s) = Some members →
  NoDup members →
  2 ≤ length members →
  falsy (cutoffOrDefault (get_alphaCutoff (this s))) = false →
  ∃ s', setAlphaMode MASK s = (Done tt, s')
        ∧ get_alphaMode (this s') = Some MASK
        ∧ get_alphaCutoff (this s') = Some (cutoffOrDefault (get_alphaCutoff (this s)))
        ∧ ∀ O, O ∈ members →
            Three.alphaTest (threeMaterials s' !!! O)
            = cutoffOrDefault (get_alphaCutoff (this s)).
Proof.
  intros Hset Hnd Hlen Hv. set (v := cutoffOrDefault (get_alphaCutoff (this s))) in *.
  unfold setAlphaMode.
  rewrite run_writeSource, run_getThis. cbn [this correlatedObjects].
  rewrite Hset. cbn [forOf].
  match goal with |- context [forEach members ?body ?s0] =>
    destruct (forEach_invariant
      (fun n s' =>
         correlatedObjects (this s') = Some members
         ∧ get_alphaMode (this s') = Some MASK
         ∧ cutoffOrDefault (get_alphaCutoff (this s')) = v
         ∧ (1 ≤ n →
            get_alphaCutoff (this s') = Some v
            ∧ ∀ O, O ∈ members →
                Three.alphaTest (threeMaterials s' !!! O) = (-0.5)%float
                ∨ Three.alphaTest (threeMaterials s' !!! O) = v)
         ∧ (2 ≤ n →
            ∀ O, O ∈ members → Three.alphaTest (threeMaterials s' !!! O) = v))
      body members) with (s := s0) as (s' & Hrun & _ & Hmode & _ & H1 & H2)
  end.
  - intros n l s1 _ (Hset1 & Hmode1 & Hcut1 & Hone & Htwo).
    rewrite !run_writeMaterial, run_getThis.
    cbn [this]. fold (cutoffOrDefault (get_alphaCutoff (this s1))). rewrite Hcut1.
    match goal with |- context [setAlphaCutoff v ?s2] =>
      destruct (setAlphaCutoff_run s2 members v) as (h' & -> & Hh')
    end; [done|].
    eexists. split; [reflexivity|]. cbn [this threeMaterials] in *.
    assert (∀ O, O ∈ members →
              Three.alphaTest (h' !!! O)
              = if (falsy (Three.alphaTest (threeMaterials s1 !!! O))
                    && negb (Three.transparent
                       (<[l := Three.set_depthWrite true
                                 (<[l := Three.set_transparent false
                                           (threeMaterials s1 !!! l)]>
                                    (threeMaterials s1) !!! l)]>
                          (<[l := Three.set_transparent false
                                    (threeMaterials s1 !!! l)]>
                             (threeMaterials s1)) !!! O)))%bool
                then (-0.5)%float else v) as Hafter.
    { intros O HO. rewrite Hh', Hmode1. cbn [isMASK].
      rewrite writeAll_lookup_NoDup by done. rewrite decide_True by done.
      by rewrite applyCutoff_alphaTest, alphaTest_after_flags. }
    repeat split; try done.
    + intros O HO. rewrite (Hafter O HO). destruct (_ && _)%bool; [by left | by right].
    + intros Hn O HO. rewrite (Hafter O HO).
      destruct Hone as [_ Hone]; [lia|].
      destruct (Hone O HO) as [-> | ->]; [done|]. by rewrite Hv.
  - do 3 (split; [done|]). split; intros; lia.
  - exists s'. split; [exact Hrun|]. split; [done|].
    split; [apply H1; lia | apply H2; lia].
Qed.

(** ** TextureInfo.setTexture *)

Lemma setTexture_loop (u : TextureUsage.t) (v : option loc) (members : list loc)
    (encoding : Three.TextureEncoding) (s : State TextureInfo) :
  forEachVar members encoding (fun material encoding =>
    encoding ←
      match u with
      | TextureUsage.Base =>
          writeMaterial material (Three.set_map v);;
          mret encoding
      | TextureUsage.Metallic =>
          writeMaterial material (Three.set_metalnessMap v);;
          mret Three.LinearEncoding
      | TextureUsage.Normal =>
          writeMaterial material (Three.set_normalMap v);;
          mret Three.LinearEncoding
      | TextureUsage.Occlusion =>
          writeMaterial material (Three.set_aoMap v);;
          mret Three.LinearEncoding
      | TextureUsage.Emissive =>
          writeMaterial material (Three.set_emissiveMap v);;
          mret encoding
      end;
    writeMaterial material (Three.set_needsUpdate true);;
    mret encoding) s
  = (Done (match members with [] => encoding | _ :: _ => encodingAfter u encoding end),
     mkState (this s)
             (writeAll (fun m => Three.set_needsUpdate true (assignSlot u v m))
                       members (threeMaterials s))
             (threeTextures s) (onUpdateCalls s)).
Proof.
  revert encoding s. induction members as [|l rest IH]; intros encoding s.
  - by destruct s.
  - cbn [forEachVar]. rewrite run_bind.
    assert (∀ e, match rest with [] => encodingAfter u e | _ :: _ => encodingAfter u (encodingAfter u e) end
                 = encodingAfter u e) as Hidem.
    { intros e. destruct rest; [done|]. by destruct u. }
    destruct u; rewrite run_bind, !run_writeMaterial; unfold_M; cbn [this threeMaterials threeTextures onUpdateCalls];
      rewrite lookup_total_insert_eq, insert_insert_eq;
      unfold writeMaterial in IH; rewrite IH; cbn;
      specialize (Hidem encoding); cbn in Hidem; by rewrite ?Hidem.
Qed.

Lemma setTexture_run (tex : option Texture) (s : State TextureInfo) :
  setTexture tex s
  = (Done tt,
     mkState {| texture := tex; materials := materials (this s);
                usage := usage (this s) |}
             match materials (this s) with
             | Some members =>
                 writeAll (fun m => Three.set_needsUpdate true
                                      (assignSlot (usage (this s)) (threeTextureOf tex) m))
                          members (threeMaterials s)
             | None => threeMaterials s
             end
             match threeTextureOf tex with
             | Some l =>
                 <[l := {| Three.encoding :=
                             stampedEncoding (materials (this s)) (usage (this s)) |}]>
                   (threeTextures s)
             | None => threeTextures s
             end
             (S (onUpdateCalls s))).
Proof.
  unfold setTexture. cbv zeta. rewrite run_getThis, run_setThis, run_bind.
  fold (threeTextureOf tex).
  destruct (materials (this s)) as [members|] eqn:Hms.
  - rewrite setTexture_loop. cbn [this threeMaterials threeTextures onUpdateCalls].
    destruct (threeTextureOf tex) as [l|]; destruct members; reflexivity.
  - destruct (threeTextureOf tex) as [l|]; reflexivity.
Qed.

(** C6 (as amended): on a texture slot with a non-empty correlated material
    set, [setTexture t] with a texture [t] over a renderer texture leaves that
    renderer texture tagged linear for usage Metallic, Normal or Occlusion,
    and sRGB for usage Base or Emissive. *)
Theorem setTexture_encoding (s : State TextureInfo) (members : list loc)
    (t : Texture) (a : loc) :
  materials (this s) = Some members →
  members ≠ [] →
  sourceTexture (source t) = Some a →
  Three.encoding (threeTextures (setTexture (Some t) s).2 !!! a)
  = match usage (this s) with
    | TextureUsage.Metallic | TextureUsage.Normal | TextureUsage.Occlusion =>
        Three.LinearEncoding
    | TextureUsage.Base | TextureUsage.Emissive => Three.sRGBEncoding
    end.
Proof.
  intros Hms Hne Ha. rewrite setTexture_run. cbn [snd threeTextures threeTextureOf].
  rewrite Ha, Hms, lookup_total_insert_eq. cbn.
  destruct members; [done|]. by destruct (usage (this s)).
Qed.

Lemma setTexture_encoding_witness :
  Three.encoding (threeTextures (setTexture (Some (textureAt 5)) normalInfo).2 !!! 5)
  = Three.LinearEncoding.
Proof.
  apply (setTexture_encoding normalInfo [0; 1] (textureAt 5) 5); done.
Defined.

(** C6 (as stated) fails on a non-null but empty correlated set: the loop
    body never runs, and a Metallic slot stamps sRGB. *)
Lemma setTexture_empty_set_stamps_sRGB :
  ¬ (∀ (s : State TextureInfo) (t : Texture) (a : loc),
       materials (this s) ≠ None →
       sourceTexture (source t) = Some a →
       Three.encoding (threeTextures (setTexture (Some t) s).2 !!! a)
       = match usage (this s) with
         | TextureUsage.Metallic | TextureUsage.Normal | TextureUsage.Occlusion =>
             Three.LinearEncoding
         | TextureUsage.Base | TextureUsage.Emissive => Three.sRGBEncoding
         end).
Proof.
  intros H. specialize (H emptyMetallicInfo (textureAt 5) 5).
  vm_compute in H. by specialize (H ltac:(done) eq_refl).
Qed.

(** C7: [setTexture(null)] always completes; it forgets the facade's texture,
    empties the slot of the usage kind on every correlated renderer object,
    whatever the slot held, and fires the update callback exactly once. *)
Theorem setTexture_null_clears (s : State TextureInfo) :
  (setTexture None s).1 = Done tt
  ∧ texture (this (setTexture None s).2) = None
  ∧ (∀ members O, materials (this s) = Some members → O ∈ members →
       slot (usage (this s)) (threeMaterials (setTexture None s).2 !!! O) = None)
  ∧ onUpdateCalls (setTexture None s).2 = S (onUpdateCalls s).
Proof.
  rewrite setTexture_run. cbn. repeat split.
  intros members O Hms HO. rewrite Hms.
  rewrite writeAll_lookup.
  - rewrite decide_True by done. by destruct (usage (this s)).
  - intros m. by destruct (usage (this s)).
Qed.

Lemma setTexture_null_clears_witness :
  (setTexture None mappedNormalInfo).1 = Done tt
  ∧ Three.normalMap (threeMaterials mappedNormalInfo !!! 0) = Some 5
  ∧ Three.normalMap (threeMaterials (setTexture None mappedNormalInfo).2 !!! 0) = None
  ∧ Three.normalMap (threeMaterials (setTexture None mappedNormalInfo).2 !!! 1) = None
  ∧ onUpdateCalls (setTexture None mappedNormalInfo).2 = 1.
Proof.
  destruct (setTexture_null_clears mappedNormalInfo) as (Hdone & _ & Hslot & Hcalls).
  split; [exact Hdone|]. split; [reflexivity|].
  split; [apply (Hslot [0; 1] 0 eq_refl); left|].
  split; [apply (Hslot [0; 1] 1 eq_refl); right; left | exact Hcalls].
Defined.

(** C10: on a texture slot whose correlated material set is null,
    [setTexture t] with a texture [t] over a renderer texture completes, tags
    that renderer texture sRGB whatever the usage kind, touches no renderer
    material, and fires the update callback once. *)
Theorem setTexture_document_only (s : State TextureInfo) (t : Texture) (a : loc) :
  materials (this s) = None →
  sourceTexture (source t) = Some a →
  (setTexture (Some t) s).1 = Done tt
  ∧ Three.encoding (threeTextures (setTexture (Some t) s).2 !!! a) = Three.sRGBEncoding
  ∧ threeMaterials (setTexture (Some t) s).2 = threeMaterials s
  ∧ onUpdateCalls (setTexture (Some t) s).2 = S (onUpdateCalls s).
Proof.
  intros Hms Ha. rewrite setTexture_run. cbn. rewrite Ha, Hms.
  by rewrite lookup_total_insert_eq.
Qed.

Lemma setTexture_document_only_witness :
  (setTexture (Some (textureAt 5)) documentOnlyNormalInfo).1 = Done tt
  ∧ Three.encoding
      (threeTextures (setTexture (Some (textureAt 5)) documentOnlyNormalInfo).2 !!! 5)
    = Three.sRGBEncoding
  ∧ threeMaterials (setTexture (Some (textureAt 5)) documentOnlyNormalInfo).2
    = threeMaterials documentOnlyNormalInfo
  ∧ onUpdateCalls (setTexture (Some (textureAt 5)) documentOnlyNormalInfo).2
    = S (onUpdateCalls documentOnlyNormalInfo).
Proof.
  apply (setTexture_document_only documentOnlyNormalInfo (textureAt 5) 5); reflexivity.
Defined.

(** ** Document-only facades *)

(** C8: on a material facade constructed without correlated objects, each of
    the four setters throws a [TypeError] (the loop over the null set);
    [TextureInfo.setTexture] on a slot without correlated materials
    completes. *)
Theorem document_only_setters (gltfMaterial : GLTFMaterial)
    (h : gmap loc Three.MeshStandardMaterial) (t : gmap loc Three.Texture)
    (calls : nat) (rgb : RGB) (value : float) (mode : AlphaMode) (flag : bool)
    (info : TextureInfo) (tex : option Texture) :
  (setEmissiveFactor rgb (documentOnlyMaterial gltfMaterial h t calls)).1
    = Throw TypeError
  ∧ (setAlphaCutoff value (documentOnlyMaterial gltfMaterial h t calls)).1
    = Throw TypeError
  ∧ (setAlphaMode mode (documentOnlyMaterial gltfMaterial h t calls)).1
    = Throw TypeError
  ∧ (setDoubleSided flag (documentOnlyMaterial gltfMaterial h t calls)).1
    = Throw TypeError
  ∧ (setTexture tex
       (mkState {| texture := texture info; materials := None; usage := usage info |}
                h t calls)).1
    = Done tt.
Proof.
  repeat split; try reflexivity. by rewrite setTexture_run.
Qed.

(** ** Calling a setter twice *)

Lemma writeAll_twice f (members : list loc) h (l : loc) :
  (∀ m, f (f m) = f m) →
  writeAll f members (writeAll f members h) !!! l = writeAll f members h !!! l.
Proof.
  intros Hf. rewrite !writeAll_lookup by done.
  destruct (decide (l ∈ members)); by rewrite ?Hf.
Qed.

Lemma setEmissiveFactor_idempotent (s : State Material) (c : RGB) :
  sameObservableState (setEmissiveFactor c (setEmissiveFactor c s).2).2
                      (setEmissiveFactor c s).2.
Proof.
  destruct (correlatedObjects (this s)) as [members|] eqn:Hset.
  - rewrite (setEmissiveFactor_run s members c Hset). cbn [snd].
    rewrite (setEmissiveFactor_run _ members c) by done. cbn.
    repeat split. intros l. apply writeAll_twice. done.
  - assert (setEmissiveFactor c s = (Throw TypeError, s)) as Hthrow.
    { unfold setEmissiveFactor. by rewrite run_getThis, run_bind, Hset. }
    rewrite Hthrow. cbn [snd]. rewrite Hthrow. by repeat split.
Qed.

Lemma setDoubleSided_idempotent (s : State Material) (flag : bool) :
  sameObservableState (setDoubleSided flag (setDoubleSided flag s).2).2
                      (setDoubleSided flag s).2.
Proof.
  destruct (correlatedObjects (this s)) as [members|] eqn:Hset.
  - rewrite (setDoubleSided_run s members flag Hset). cbn [snd].
    rewrite (setDoubleSided_run _ members flag) by done. cbn.
    repeat split. intros l. apply writeAll_twice. done.
  - assert (setDoubleSided flag s = (Throw TypeError, s)) as Hthrow.
    { unfold setDoubleSided. by rewrite run_getThis, run_bind, Hset. }
    rewrite Hthrow. cbn [snd]. rewrite Hthrow. by repeat split.
Qed.

Lemma setTexture_idempotent (s : State TextureInfo) (tex : option Texture) :
  sameObservableState (setTexture tex (setTexture tex s).2).2 (setTexture tex s).2.
Proof.
  rewrite (setTexture_run tex s). cbn [snd]. rewrite setTexture_run. cbn.
  repeat split.
  - intros l. destruct (materials (this s)); [|done].
    apply writeAll_twice. intros m. by destruct (usage (this s)).
  - intros l. destruct (threeTextureOf tex); [|done]. by rewrite insert_insert_eq.
Qed.

(** C4: the two alpha setters are not idempotent. On a ['MASK'] material over
    one fresh renderer object, the first [setAlphaCutoff(0.5)] leaves the
    threshold at -0.5 and the second moves it to 0.5; the same happens with
    two calls of [setAlphaMode('MASK')] on a fresh material. *)
Theorem alpha_setters_not_idempotent :
  (Three.alphaTest (threeMaterials (setAlphaCutoff 0.5 maskMaterial).2 !!! 0)
   = (-0.5)%float
   ∧ Three.alphaTest
       (threeMaterials (setAlphaCutoff 0.5 (setAlphaCutoff 0.5 maskMaterial).2).2 !!! 0)
     = 0.5%float
   ∧ ¬ sameObservableState (setAlphaCutoff 0.5 (setAlphaCutoff 0.5 maskMaterial).2).2
                           (setAlphaCutoff 0.5 maskMaterial).2)
  ∧ (Three.alphaTest (threeMaterials (setAlphaMode MASK (freshMaterial 1)).2 !!! 0)
     = (-0.5)%float
     ∧ Three.alphaTest
         (threeMaterials (setAlphaMode MASK (setAlphaMode MASK (freshMaterial 1)).2).2 !!! 0)
       = 0.5%float
     ∧ ¬ sameObservableState (setAlphaMode MASK (setAlphaMode MASK (freshMaterial 1)).2).2
                             (setAlphaMode MASK (freshMaterial 1)).2).
Proof.
  assert (∀ {T} (s1 s2 : State T),
            PrimFloat.ltb (Three.alphaTest (threeMaterials s1 !!! 0)) 0
            ≠ PrimFloat.ltb (Three.alphaTest (threeMaterials s2 !!! 0)) 0 →
            ¬ sameObservableState s1 s2) as Hdiff.
  { intros T s1 s2 Hne (_ & Hm & _). apply Hne. by rewrite Hm. }
  split; (split; [by vm_compute | split; [by vm_compute |]]);
    apply Hdiff; by vm_compute.
Qed.

(** ** The hotspot reducer *)

(** C9 (as amended): an ADD_HOTSPOT action whose name is in the module's name
    set makes the reducer throw, whatever the state array holds; no array is
    returned and the name set stays as it was. *)
Theorem addHotspot_name_in_set_throws (HotspotConfig : Type)
    (name : HotspotConfig -> string)
    (immutableArrayUpdate :
       list HotspotConfig -> nat -> HotspotConfig -> list HotspotConfig)
    (g : Globals) (state : option (list HotspotConfig)) (config : HotspotConfig) :
  name config ∈ hotspotNameSet g →
  hotspotsReducer HotspotConfig name immutableArrayUpdate g state
                  (ADD_HOTSPOT HotspotConfig (Some config))
  = (Throw (Error ("Hotspot name duplicate: " +:+ name config)), g).
Proof.
  intros Hin. unfold hotspotsReducer, addHotspot. by rewrite decide_True.
Qed.

Lemma addHotspot_name_in_set_throws_witness :
  hotspotsReducer NamedHotspot hotspotName copyWith
                  {| nextHotspotId := 1; hotspotNameSet := {[ "a" ]} |} (Some [])
                  (ADD_HOTSPOT NamedHotspot (Some hotspotA))
  = (Throw (Error "Hotspot name duplicate: a"),
     {| nextHotspotId := 1; hotspotNameSet := {[ "a" ]} |}).
Proof.
  apply (addHotspot_name_in_set_throws NamedHotspot hotspotName copyWith
           {| nextHotspotId := 1; hotspotNameSet := {[ "a" ]} |} (Some []) hotspotA).
  by vm_compute.
Defined.

(** A name the set does not hold is accepted, whatever the array holds. *)
Lemma addHotspot_name_not_in_set (HotspotConfig : Type)
    (name : HotspotConfig -> string)
    (immutableArrayUpdate :
       list HotspotConfig -> nat -> HotspotConfig -> list HotspotConfig)
    (g : Globals) (state : list HotspotConfig) (config : HotspotConfig) :
  name config ∉ hotspotNameSet g →
  hotspotsReducer HotspotConfig name immutableArrayUpdate g (Some state)
                  (ADD_HOTSPOT HotspotConfig (Some config))
  = (Done (state ++ [config]),
     {| nextHotspotId := nextHotspotId g;
        hotspotNameSet := hotspotNameSet g ∪ {[ name config ]} |}).
Proof.
  intros Hnin. unfold hotspotsReducer, addHotspot. by rewrite decide_False.
Qed.

(** C9 (as stated) fails: the reducer looks the name up in the module's name
    set, not in the array. With the name set empty and hotspot "a" in the
    array, adding "a" again returns a two-element array. *)
Lemma addHotspot_name_in_array_accepted :
  ¬ (∀ (g : Globals) (state : list NamedHotspot) (config : NamedHotspot),
       hotspotName config ∈ hotspotName <$> state →
       ∃ e, (hotspotsReducer NamedHotspot hotspotName copyWith g (Some state)
               (ADD_HOTSPOT NamedHotspot (Some config))).1 = Throw e).
Proof.
  intros H. destruct (H initialGlobals [hotspotA] hotspotA) as [e He].
  - by left.
  - rewrite addHotspot_name_not_in_set in He by set_solver. discriminate He.
Qed.

(** Such a state arises in use: [dispatchClearHotspot] empties the name set
    when the action is created, before a reducer has seen it. *)
Example name_set_cleared_before_array :
  let '(r1, g1) := hotspotsReducer NamedHotspot hotspotName copyWith initialGlobals None
                     (dispatchAddHotspot NamedHotspot (Some hotspotA)) in
  let '(_, g2) := dispatchClearHotspot NamedHotspot g1 in
  r1 = Done [hotspotA]
  ∧ (hotspotsReducer NamedHotspot hotspotName copyWith g2 (Some [hotspotA])
       (dispatchAddHotspot NamedHotspot (Some hotspotA))).1
    = Done [hotspotA; hotspotA].
Proof. by vm_compute. Qed.

(** * Further properties *)

(** ** Unique hotspot names *)

Lemma whileNameTaken_spec (fuel : nat) (X : gset string) (k : nat) (g : Globals) :
  nextHotspotId g = S k →
  (∀ j, k ≤ j → pretty j ∈ hotspotNameSet g → pretty j ∈ X) →
  size X ≤ fuel →
  ∃ k', whileNameTaken fuel (pretty k) g
        = Some (pretty k',
                {| nextHotspotId := S k'; hotspotNameSet := hotspotNameSet g |})
      ∧ k ≤ k'
      ∧ (pretty k' ∉ hotspotNameSet g)
      ∧ ∀ j, k ≤ j < k' → pretty j ∈ hotspotNameSet g.
Proof.
  revert X k g. induction fuel as [|fuel IH]; intros X k g Hnext Hcover Hsize.
  - exists k. cbn. destruct (decide (pretty k ∈ hotspotNameSet g)) as [Hin|Hnin].
    + apply Hcover in Hin; [|lia].
      assert (size X = 0) as Hzero%size_empty_inv by lia. set_solver.
    + destruct g; cbn in *; subst. repeat split; [lia | done | intros; lia].
  - cbn. destruct (decide (pretty k ∈ hotspotNameSet g)) as [Hin|Hnin].
    + destruct (IH (X ∖ {[ pretty k ]}) (S k) (takeHotspotId g).2)
        as (k' & Hrun & Hle & Hfree & Htaken).
      * cbn. by rewrite Hnext.
      * cbn. intros j Hj Hjin. apply elem_of_difference. split.
        -- apply Hcover; [lia | done].
        -- intros Heq%elem_of_singleton. apply (inj pretty) in Heq. lia.
      * assert (pretty k ∈ X) as HkX by (apply Hcover; [lia | done]).
        rewrite size_difference by (by apply singleton_subseteq_l).
        rewrite size_singleton. lia.
      * exists k'. cbn in Hrun, Hfree, Htaken. rewrite Hnext at 1. rewrite Hrun.
        repeat split; [lia | done |].
        intros j Hj. destruct (decide (j = k)) as [->|Hne]; [done|].
        apply Htaken. lia.
    + exists k. destruct g; cbn in *; subst. repeat split; [lia | done | intros; lia].
Qed.

(** X1: with fuel for one turn of the loop per name of the set,
    [generateUniqueHotspotName] returns; the name it returns is the decimal
    form of the first free counter value from [nextHotspotId] on, it is not in
    the name set, the name set is left as it was (the name is not reserved)
    and the counter ends one past the value used. *)
Theorem generateUniqueHotspotName_fresh (fuel : nat) (g : Globals) :
  size (hotspotNameSet g) ≤ fuel →
  ∃ k, generateUniqueHotspotName fuel g
       = Some (pretty k,
               {| nextHotspotId := S k; hotspotNameSet := hotspotNameSet g |})
     ∧ nextHotspotId g ≤ k
     ∧ (pretty k ∉ hotspotNameSet g)
     ∧ ∀ j, nextHotspotId g ≤ j < k → pretty j ∈ hotspotNameSet g.
Proof.
  intros Hsize. unfold generateUniqueHotspotName.
  apply (whileNameTaken_spec fuel (hotspotNameSet g) (nextHotspotId g)
           (takeHotspotId g).2); [done | done | done].
Qed.

Lemma generateUniqueHotspotName_fresh_witness :
  ∃ k, generateUniqueHotspotName 2 globalsWith12
       = Some (pretty k,
               {| nextHotspotId := S k; hotspotNameSet := hotspotNameSet globalsWith12 |})
     ∧ nextHotspotId globalsWith12 ≤ k
     ∧ (pretty k ∉ hotspotNameSet globalsWith12)
     ∧ ∀ j, nextHotspotId globalsWith12 ≤ j < k → pretty j ∈ hotspotNameSet globalsWith12.
Proof.
  apply (generateUniqueHotspotName_fresh 2 globalsWith12). by vm_compute.
Defined.

Lemma whileNameTaken_result (fuel : nat) (k : nat) (g : Globals) (n : string)
    (g' : Globals) :
  nextHotspotId g = S k →
  whileNameTaken fuel (pretty k) g = Some (n, g') →
  ∃ k', n = pretty k' ∧ k ≤ k' ∧ nextHotspotId g' = S k'
        ∧ hotspotNameSet g' = hotspotNameSet g ∧ n ∉ hotspotNameSet g.
Proof.
  revert k g. induction fuel as [|fuel IH]; intros k g Hnext Hrun; cbn in Hrun;
    destruct (decide (pretty k ∈ hotspotNameSet g)) as [Hin|Hnin]; try done.
  - injection Hrun as <- <-. exists k. by repeat split.
  - rewrite Hnext in Hrun.
    apply IH in Hrun as (k' & -> & Hle & Hnext' & Hset & Hfree); [|done].
    exists k'. repeat split; [lia | done | done | done].
  - injection Hrun as <- <-. exists k. by repeat split.
Qed.



Section HotspotFacts.
Context {HotspotConfig : Type} (name : HotspotConfig -> string).
Context (immutableArrayUpdate :
           list HotspotConfig -> nat -> HotspotConfig -> list HotspotConfig).

Lemma findIndex_None (state : list HotspotConfig) (n : string) :
  findIndex HotspotConfig name state (Some n) = None ↔ n ∉ name <$> state.
Proof.
  induction state as [|h rest IH]; cbn.
  - split; [intros _; apply not_elem_of_nil | done].
  - destruct (decide (Some (name h) = Some n)) as [Heq|Hne].
    + injection Heq as <-. split; [done|]. intros Hnin. exfalso. apply Hnin. left.
    + rewrite fmap_None, IH, not_elem_of_cons. split; [|by intros [_ ?]].
      intros Hnin. split; [|done]. intros ->. by apply Hne.
Qed.

Lemma findIndex_app_last (state : list HotspotConfig) (config : HotspotConfig) :
  name config ∉ name <$> state →
  findIndex HotspotConfig name (state ++ [config]) (Some (name config))
  = Some (length state).
Proof.
  induction state as [|h rest IH]; cbn; intros Hnin.
  - by rewrite decide_True.
  - apply not_elem_of_cons in Hnin as [Hne Hnin].
    rewrite decide_False by (intros [= Heq]; by apply Hne).
    by rewrite IH.
Qed.

(** Removing the first hotspot named [n] from an array without repeated
    names removes [n] from the names. *)
Lemma findIndex_remove_names (state : list HotspotConfig) (n : string) (i : nat) :
  NoDup (name <$> state) →
  findIndex HotspotConfig name state (Some n) = Some i →
  NoDup (name <$> (take i state ++ drop (S i) state))
  ∧ (list_to_set (name <$> (take i state ++ drop (S i) state)) : gset string)
    = list_to_set (name <$> state) ∖ {[ n ]}.
Proof.
  revert i. induction state as [|h rest IH]; cbn; intros i Hnd Hfind; [done|].
  apply NoDup_cons in Hnd as [Hnin Hnd].
  destruct (decide (Some (name h) = Some n)) as [Heq|Hne].
  - injection Heq as <-. injection Hfind as <-. cbn. rewrite drop_0.
    split; [done|].
    assert (name h ∉ (list_to_set (name <$> rest) : gset string))
      by (by rewrite elem_of_list_to_set).
    set_solver.
  - destruct (findIndex HotspotConfig name rest (Some n)) as [j|] eqn:Hj; [|done].
    injection Hfind as <-. cbn. destruct (IH j Hnd eq_refl) as [Hnd' Hset].
    split.
    + apply NoDup_cons. split; [|done].
      intros Hin. apply Hnin. rewrite fmap_app in Hin.
      apply elem_of_app in Hin as [Hin|Hin].
      * apply list_elem_of_fmap in Hin as (x & -> & Hx).
        apply list_elem_of_fmap. exists x. split; [done|].
        by apply (subseteq_take j rest).
      * apply list_elem_of_fmap in Hin as (x & -> & Hx).
        apply list_elem_of_fmap. exists x. split; [done|].
        by apply (subseteq_drop (S j) rest).
    + rewrite Hset. assert (name h ≠ n) by (intros Heq; apply Hne; by rewrite Heq). set_solver.
Qed.

Lemma findIndex_Some (state : list HotspotConfig) (n : string) (i : nat) :
  findIndex HotspotConfig name state (Some n) = Some i →
  name <$> state !! i = Some n.
Proof.
  revert i. induction state as [|h rest IH]; cbn; intros i Hfind; [done|].
  destruct (decide (Some (name h) = Some n)) as [Heq|Hne].
  - injection Hfind as <-. done.
  - destruct (findIndex HotspotConfig name rest (Some n)) as [j|] eqn:Hj; [|done].
    injection Hfind as <-. cbn. by apply IH.
Qed.

Lemma findIndex_undefined (state : list HotspotConfig) :
  findIndex HotspotConfig name state None = None.
Proof.
  induction state as [|h rest IH]; cbn; [done|].
  rewrite decide_False by done. by rewrite IH.
Qed.

(** X3: the flow of the preview's click handler: a name that
    [generateUniqueHotspotName] has just returned is accepted by the next
    ADD_HOTSPOT, whatever the array holds; the hotspot goes to the end of the
    array and its name into the name set. *)
Theorem generated_name_is_accepted (fuel : nat) (g g' : Globals) (n : string)
    (state : option (list HotspotConfig)) (config : HotspotConfig) :
  generateUniqueHotspotName fuel g = Some (n, g') →
  name config = n →
  hotspotsReducer HotspotConfig name immutableArrayUpdate g' state
                  (dispatchAddHotspot HotspotConfig (Some config))
  = (Done (default [] state ++ [config]),
     {| nextHotspotId := nextHotspotId g';
        hotspotNameSet := hotspotNameSet g ∪ {[ n ]} |}).
Proof.
  unfold generateUniqueHotspotName. intros Hrun Hname.
  apply whileNameTaken_result in Hrun as (k & Hn & _ & _ & Hset & Hfree); [|done].
  cbn in Hset, Hfree. unfold hotspotsReducer, dispatchAddHotspot, addHotspot.
  rewrite Hname, Hset. by rewrite decide_False.
Qed.

(** X4: REMOVE_HOTSPOT and UPDATE_HOTSPOT of a name that no hotspot of the
    array carries throw "Hotspot name doesn't exist", and leave the
    module-level variables alone; the name set is not consulted. *)
Theorem remove_update_absent_name_throw (g : Globals) (state : list HotspotConfig)
    (config : HotspotConfig) :
  name config ∉ name <$> state →
  hotspotsReducer HotspotConfig name immutableArrayUpdate g (Some state)
                  (REMOVE_HOTSPOT HotspotConfig (Some (name config)))
  = (Throw (Error ("Hotspot name doesn't exist: " +:+ name config)), g)
  ∧ hotspotsReducer HotspotConfig name immutableArrayUpdate g (Some state)
                    (UPDATE_HOTSPOT HotspotConfig (Some config))
    = (Throw (Error ("Hotspot name doesn't exist: " +:+ name config)), g).
Proof.
  intros Habsent%findIndex_None.
  unfold hotspotsReducer, removeHotspot, updateHotspot, findHotspotIndex. cbn.
  by rewrite Habsent.
Qed.

(** X5: adding a hotspot whose name is new both to the name set and to the
    array, and then removing it by name, gives back the array and the
    module-level variables of before. *)
Theorem add_then_remove_restores (g : Globals) (state : list HotspotConfig)
    (config : HotspotConfig) :
  name config ∉ hotspotNameSet g →
  name config ∉ name <$> state →
  ∃ g1, hotspotsReducer HotspotConfig name immutableArrayUpdate g (Some state)
                        (ADD_HOTSPOT HotspotConfig (Some config))
        = (Done (state ++ [config]), g1)
      ∧ hotspotsReducer HotspotConfig name immutableArrayUpdate g1
                        (Some (state ++ [config]))
                        (REMOVE_HOTSPOT HotspotConfig (Some (name config)))
        = (Done state, g).
Proof.
  intros Hfree Habsent. eexists. split.
  - unfold hotspotsReducer, addHotspot. cbn. by rewrite decide_False.
  - unfold hotspotsReducer, removeHotspot, findHotspotIndex. cbn.
    rewrite findIndex_app_last by done.
    rewrite take_app_length, drop_ge, app_nil_r by (rewrite length_app; cbn; lia).
    f_equal. destruct g as [next names]. f_equal. cbn in *. set_solver.
Qed.

(** X6: as long as the name set holds exactly the names of the array and
    the array has no repeated name, every ADD, UPDATE and REMOVE keeps it so:
    when the reducer returns, the new array and the name set agree again, and
    when it throws, the module-level variables are untouched. (UPDATE relies
    on [immutableArrayUpdate] replacing the entry at the index.) *)
Theorem hotspotsReducer_keeps_sync (g : Globals) (state : list HotspotConfig)
    (action : Action HotspotConfig) :
  (∀ l i x, immutableArrayUpdate l i x = <[i := x]> l) →
  hotspotsInSync name state g →
  (∀ payload, action ≠ SET_HOTSPOTS HotspotConfig payload) →
  (∀ payload, action ≠ CLEAR_HOTSPOTS HotspotConfig payload) →
  match hotspotsReducer HotspotConfig name immutableArrayUpdate g (Some state) action with
  | (Done state', g') => hotspotsInSync name state' g'
  | (Throw _, g') => g' = g
  end.
Proof.
  intros Hupd [Hset Hnd] Hnoset Hnoclear.
  destruct action as [p|p|[n|]|[config|]|[config|]|].
  - by destruct (Hnoset p).
  - by destruct (Hnoclear p).
  - cbn. unfold removeHotspot, findHotspotIndex.
    destruct (findIndex HotspotConfig name state (Some n)) as [i|] eqn:Hfind; [|done].
    destruct (findIndex_remove_names state n i Hnd Hfind) as [Hnd' Hset'].
    split; [|done]. cbn. by rewrite Hset, Hset'.
  - cbn. unfold removeHotspot, findHotspotIndex.
    by rewrite findIndex_undefined.
  - cbn. unfold updateHotspot, findHotspotIndex.
    destruct (findIndex HotspotConfig name state (Some (name config))) as [i|] eqn:Hfind;
      [|done].
    apply findIndex_Some in Hfind.
    assert (name <$> immutableArrayUpdate state i config = name <$> state) as Hnames.
    { rewrite Hupd, list_fmap_insert. apply list_insert_id.
      by rewrite list_lookup_fmap. }
    split; by rewrite Hnames.
  - done.
  - cbn. unfold addHotspot.
    destruct (decide (name config ∈ hotspotNameSet g)) as [Hin|Hnin]; [done|].
    split; cbn.
    + rewrite fmap_app, list_to_set_app_L, Hset. cbn. set_solver.
    + rewrite fmap_app. apply NoDup_app. split; [done|]. split.
      * intros x Hx [->|Hnil%elem_of_nil]%elem_of_cons; [|done].
        apply Hnin. rewrite Hset. by apply elem_of_list_to_set.
      * apply NoDup_singleton.
  - done.
  - done.
Qed.

(** X7: once the action of [dispatchSetHotspots(hotspots)] is reduced, the
    array is [hotspots] and an ADD_HOTSPOT throws exactly when its name is
    carried by one of them; otherwise the hotspot is appended. *)
Theorem set_then_add (g : Globals) (state : option (list HotspotConfig))
    (hotspots : list HotspotConfig) (config : HotspotConfig) :
  let '(action, g1) := dispatchSetHotspots HotspotConfig name g hotspots in
  hotspotsReducer HotspotConfig name immutableArrayUpdate g1 state action
  = (Done hotspots, g1)
  ∧ (hotspotsReducer HotspotConfig name immutableArrayUpdate g1 (Some hotspots)
                     (ADD_HOTSPOT HotspotConfig (Some config))).1
    = if decide (name config ∈ name <$> hotspots)
      then Throw (Error ("Hotspot name duplicate: " +:+ name config))
      else Done (hotspots ++ [config]).
Proof.
  cbn. split; [done|]. unfold addHotspot. cbn.
  destruct (decide (name config ∈ name <$> hotspots)) as [Hin|Hnin].
  - rewrite decide_True; [done|]. by apply elem_of_list_to_set.
  - rewrite decide_False; [done|]. by rewrite elem_of_list_to_set.
Qed.

(** X9: [dispatchClearHotspot] restarts the numbering: right after it, with
    any fuel, [generateUniqueHotspotName] returns "1", and every ADD_HOTSPOT
    is accepted, whatever array the store still holds. *)
Theorem clear_restarts_names (g : Globals) (fuel : nat)
    (state : list HotspotConfig) (config : HotspotConfig) :
  let '(action, g1) := dispatchClearHotspot HotspotConfig g in
  generateUniqueHotspotName fuel g1
  = Some ("1", {| nextHotspotId := 2; hotspotNameSet := ∅ |})
  ∧ (hotspotsReducer HotspotConfig name immutableArrayUpdate g1 (Some state)
                     (ADD_HOTSPOT HotspotConfig (Some config))).1
    = Done (state ++ [config]).
Proof.
  cbn. split.
  - unfold generateUniqueHotspotName. by destruct fuel.
  - unfold addHotspot. by rewrite decide_False.
Qed.

(** X8: while the name set holds the names of the array, an ADD_HOTSPOT
    whose name some hotspot of the array carries throws "Hotspot name
    duplicate" and changes nothing. *)
Theorem add_duplicate_throws_when_in_sync (g : Globals) (state : list HotspotConfig)
    (config : HotspotConfig) :
  hotspotNameSet g = list_to_set (name <$> state) →
  name config ∈ name <$> state →
  hotspotsReducer HotspotConfig name immutableArrayUpdate g (Some state)
                  (ADD_HOTSPOT HotspotConfig (Some config))
  = (Throw (Error ("Hotspot name duplicate: " +:+ name config)), g).
Proof.
  intros Hset Hin. unfold hotspotsReducer, addHotspot. cbn.
  rewrite decide_True; [done|]. rewrite Hset. by apply elem_of_list_to_set.
Qed.

End HotspotFacts.

Lemma generated_name_is_accepted_witness :
  hotspotsReducer NamedHotspot hotspotName copyWith
    {| nextHotspotId := 4; hotspotNameSet := {[ "1"; "2" ]} |} (Some [hotspotA])
    (dispatchAddHotspot NamedHotspot (Some {| hotspotName := "3"; annotation := None |}))
  = (Done ([hotspotA] ++ [{| hotspotName := "3"; annotation := None |}]),
     {| nextHotspotId := 4; hotspotNameSet := {[ "1"; "2" ]} ∪ {[ "3" ]} |}).
Proof.
  apply (generated_name_is_accepted hotspotName copyWith 2 globalsWith12
           {| nextHotspotId := 4; hotspotNameSet := {[ "1"; "2" ]} |} "3"
           (Some [hotspotA]) {| hotspotName := "3"; annotation := None |});
    by vm_compute.
Defined.

Lemma remove_update_absent_name_throw_witness :
  hotspotsReducer NamedHotspot hotspotName copyWith initialGlobals (Some [hotspotA])
                  (REMOVE_HOTSPOT NamedHotspot (Some "b"))
  = (Throw (Error "Hotspot name doesn't exist: b"), initialGlobals)
  ∧ hotspotsReducer NamedHotspot hotspotName copyWith initialGlobals (Some [hotspotA])
                    (UPDATE_HOTSPOT NamedHotspot (Some hotspotB))
    = (Throw (Error "Hotspot name doesn't exist: b"), initialGlobals).
Proof.
  apply (remove_update_absent_name_throw hotspotName copyWith initialGlobals
           [hotspotA] hotspotB).
  cbn. intros [Heq|Hnil%elem_of_nil]%elem_of_cons; [discriminate Heq | done].
Defined.

Lemma add_then_remove_restores_witness :
  ∃ g1, hotspotsReducer NamedHotspot hotspotName copyWith
          {| nextHotspotId := 2; hotspotNameSet := {[ "a" ]} |} (Some [hotspotA])
          (ADD_HOTSPOT NamedHotspot (Some hotspotB))
        = (Done ([hotspotA] ++ [hotspotB]), g1)
      ∧ hotspotsReducer NamedHotspot hotspotName copyWith g1
          (Some ([hotspotA] ++ [hotspotB])) (REMOVE_HOTSPOT NamedHotspot (Some "b"))
        = (Done [hotspotA], {| nextHotspotId := 2; hotspotNameSet := {[ "a" ]} |}).
Proof.
  apply (add_then_remove_restores hotspotName copyWith
           {| nextHotspotId := 2; hotspotNameSet := {[ "a" ]} |} [hotspotA] hotspotB).
  - cbn. intros Hin%elem_of_singleton. discriminate Hin.
  - cbn. intros [Heq|Hnil%elem_of_nil]%elem_of_cons; [discriminate Heq | done].
Defined.

Lemma hotspotsReducer_keeps_sync_witness :
  match hotspotsReducer NamedHotspot hotspotName copyWith
          {| nextHotspotId := 2; hotspotNameSet := list_to_set ["a"] |}
          (Some [hotspotA]) (REMOVE_HOTSPOT NamedHotspot (Some "a")) with
  | (Done state', g') => hotspotsInSync hotspotName state' g'
  | (Throw _, g') => g' = {| nextHotspotId := 2; hotspotNameSet := list_to_set ["a"] |}
  end.
Proof.
  apply (hotspotsReducer_keeps_sync hotspotName copyWith
           {| nextHotspotId := 2; hotspotNameSet := list_to_set ["a"] |}
           [hotspotA] (REMOVE_HOTSPOT NamedHotspot (Some "a"))).
  - reflexivity.
  - split; [reflexivity|]. cbn. apply NoDup_singleton.
  - intros payload Heq. discriminate Heq.
  - intros payload Heq. discriminate Heq.
Defined.

Lemma add_duplicate_throws_when_in_sync_witness :
  hotspotsReducer NamedHotspot hotspotName copyWith
    {| nextHotspotId := 2; hotspotNameSet := list_to_set ["a"] |} (Some [hotspotA])
    (ADD_HOTSPOT NamedHotspot (Some hotspotA))
  = (Throw (Error "Hotspot name duplicate: a"),
     {| nextHotspotId := 2; hotspotNameSet := list_to_set ["a"] |}).
Proof.
  apply (add_duplicate_throws_when_in_sync hotspotName copyWith
           {| nextHotspotId := 2; hotspotNameSet := list_to_set ["a"] |}
           [hotspotA] hotspotA).
  - reflexivity.
  - cbn. left.
Defined.

(** ** Material setters: what they write and what they leave alone *)

Lemma writeAll_lookup_outside f (members : list loc) h (l : loc) :
  l ∉ members → writeAll f members h !!! l = h !!! l.
Proof.
  revert h. induction members as [|a rest IH]; intros h Hnin; [done|].
  apply not_elem_of_cons in Hnin as [Hne Hnin].
  change (writeAll f (a :: rest) h) with (writeAll f rest (<[a := f (h !!! a)]> h)).
  rewrite IH by done. by rewrite lookup_total_insert_ne.
Qed.

Lemma setAlphaMode_flags_loop (b1 b2 : bool) (members : list loc)
    (s : State Material) :
  forEach members (fun material =>
    writeMaterial material (Three.set_transparent b1);;
    writeMaterial material (Three.set_depthWrite b2);;
    onUpdate) s
  = (Done tt,
     mkState (this s)
             (writeAll (fun m => Three.set_depthWrite b2 (Three.set_transparent b1 m))
                       members (threeMaterials s))
             (threeTextures s) (length members + onUpdateCalls s)).
Proof.
  revert s. induction members as [|l rest IH]; intros s.
  - by destruct s.
  - cbn [forEach]. rewrite run_bind, !run_writeMaterial. unfold_bind.
    cbn [this threeMaterials threeTextures onUpdateCalls].
    rewrite lookup_total_insert_eq, insert_insert_eq, IH. cbn.
    do 2 f_equal. lia.
Qed.

Lemma setAlphaMode_flags_run (s : State Material) (members : list loc)
    (mode : AlphaMode) :
  correlatedObjects (this s) = Some members →
  mode ≠ MASK →
  setAlphaMode mode s
  = (Done tt,
     mkState {| sourceObject := set_alphaMode (Some mode) (sourceObject (this s));
                correlatedObjects := Some members |}
             (writeAll (fun m => Three.set_depthWrite (negb (isBLEND mode))
                                   (Three.set_transparent (isBLEND mode) m))
                       members (threeMaterials s))
             (threeTextures s) (length members + onUpdateCalls s)).
Proof.
  intros Hset Hmode. unfold setAlphaMode.
  rewrite run_writeSource, run_getThis. cbn [this correlatedObjects].
  rewrite Hset. cbn [forOf].
  destruct mode; [|done|]; by rewrite setAlphaMode_flags_loop.
Qed.

(** X10: [setAlphaMode('OPAQUE')] and [setAlphaMode('BLEND')] complete on a
    material with correlated objects, record the mode in the source document,
    and on every correlated renderer object set the transparency flag (on for
    BLEND, off for OPAQUE) and the depth-write flag (the opposite), whatever
    they were, changing nothing else of the object. *)
Theorem setAlphaMode_OPAQUE_BLEND (s : State Material) (members : list loc)
    (mode : AlphaMode) :
  correlatedObjects (this s) = Some members →
  mode ≠ MASK →
  (setAlphaMode mode s).1 = Done tt
  ∧ get_alphaMode (this (setAlphaMode mode s).2) = Some mode
  ∧ get_alphaCutoff (this (setAlphaMode mode s).2) = get_alphaCutoff (this s)
  ∧ ∀ O, O ∈ members →
      threeMaterials (setAlphaMode mode s).2 !!! O
      = Three.set_depthWrite (negb (isBLEND mode))
          (Three.set_transparent (isBLEND mode) (threeMaterials s !!! O)).
Proof.
  intros Hset Hmode. rewrite (setAlphaMode_flags_run s members mode Hset Hmode).
  cbn. repeat split. intros O HO.
  rewrite writeAll_lookup by done. by rewrite decide_True.
Qed.

Lemma setAlphaMode_OPAQUE_BLEND_witness :
  (setAlphaMode BLEND (freshMaterial 2)).1 = Done tt
  ∧ get_alphaMode (this (setAlphaMode BLEND (freshMaterial 2)).2) = Some BLEND
  ∧ get_alphaCutoff (this (setAlphaMode BLEND (freshMaterial 2)).2)
    = get_alphaCutoff (this (freshMaterial 2))
  ∧ ∀ O, O ∈ [0; 1] →
      threeMaterials (setAlphaMode BLEND (freshMaterial 2)).2 !!! O
      = Three.set_depthWrite (negb (isBLEND BLEND))
          (Three.set_transparent (isBLEND BLEND)
             (threeMaterials (freshMaterial 2) !!! O)).
Proof.
  apply (setAlphaMode_OPAQUE_BLEND (freshMaterial 2) [0; 1] BLEND);
    [reflexivity | discriminate].
Defined.

(** The effect of [setAlphaCutoff] on each member of a correlated set. *)
Lemma setAlphaCutoff_members (s : State Material) (members : list loc)
    (value : float) :
  correlatedObjects (this s) = Some members →
  NoDup members →
  ∃ h', setAlphaCutoff value s
        = (Done tt,
           mkState {| sourceObject := set_alphaCutoff (Some value) (sourceObject (this s));
                      correlatedObjects := Some members |}
                   h' (threeTextures s) (S (onUpdateCalls s)))
      ∧ (∀ O, O ∈ members →
           h' !!! O
           = applyCutoff (isMASK (get_alphaMode (this s))) value (threeMaterials s !!! O))
      ∧ (∀ l, l ∉ members → h' !!! l = threeMaterials s !!! l).
Proof.
  intros Hset Hnd. destruct (setAlphaCutoff_run s members value Hset) as (h' & Hrun & Hh').
  exists h'. split; [done|]. split.
  - intros O HO. rewrite Hh', writeAll_lookup_NoDup by done. by rewrite decide_True.
  - intros l Hl. by rewrite Hh', writeAll_lookup_outside.
Qed.

(** X11: in mode ['MASK'], on correlated renderer objects that have an alpha
    test threshold or are transparent, [setAlphaCutoff(value)] sets every
    threshold to [value] and changes nothing else of the objects; it records
    [value] in the source document and fires the callback once. *)
Theorem setAlphaCutoff_MASK_applies (s : State Material) (members : list loc)
    (value : float) :
  correlatedObjects (this s) = Some members →
  NoDup members →
  get_alphaMode (this s) = Some MASK →
  (∀ O, O ∈ members →
     falsy (Three.alphaTest (threeMaterials s !!! O)) = false
     ∨ Three.transparent (threeMaterials s !!! O) = true) →
  (setAlphaCutoff value s).1 = Done tt
  ∧ get_alphaCutoff (this (setAlphaCutoff value s).2) = Some value
  ∧ onUpdateCalls (setAlphaCutoff value s).2 = S (onUpdateCalls s)
  ∧ ∀ O, O ∈ members →
      threeMaterials (setAlphaCutoff value s).2 !!! O
      = Three.set_alphaTest value (threeMaterials s !!! O).
Proof.
  intros Hset Hnd Hmode Hon.
  destruct (setAlphaCutoff_members s members value Hset Hnd) as (h' & -> & Hin & _).
  cbn. repeat split. intros O HO. rewrite (Hin O HO), Hmode. unfold applyCutoff. cbn.
  destruct (Hon O HO) as [-> | ->]; [done|]. by rewrite andb_false_r.
Qed.

Lemma setAlphaCutoff_MASK_applies_witness :
  (setAlphaCutoff 0.75 maskedPair).1 = Done tt
  ∧ get_alphaCutoff (this (setAlphaCutoff 0.75 maskedPair).2) = Some 0.75%float
  ∧ onUpdateCalls (setAlphaCutoff 0.75 maskedPair).2 = S (onUpdateCalls maskedPair)
  ∧ ∀ O, O ∈ [0; 1] →
      threeMaterials (setAlphaCutoff 0.75 maskedPair).2 !!! O
      = Three.set_alphaTest 0.75%float (threeMaterials maskedPair !!! O).
Proof.
  apply (setAlphaCutoff_MASK_applies maskedPair [0; 1] 0.75%float).
  - reflexivity.
  - apply (bool_decide_unpack _). by vm_compute.
  - reflexivity.
  - intros O [->|[->|Hnil%elem_of_nil]%elem_of_cons]%elem_of_cons;
      [by left | by left | done].
Defined.

(** X12: in a mode other than ['MASK'], [setAlphaCutoff(value)] still records
    [value] in the source document and fires the callback once, but leaves
    every correlated renderer object that has an alpha test threshold or is
    transparent exactly as it was. *)
Theorem setAlphaCutoff_outside_MASK (s : State Material) (members : list loc)
    (value : float) :
  correlatedObjects (this s) = Some members →
  NoDup members →
  get_alphaMode (this s) ≠ Some MASK →
  (setAlphaCutoff value s).1 = Done tt
  ∧ get_alphaCutoff (this (setAlphaCutoff value s).2) = Some value
  ∧ onUpdateCalls (setAlphaCutoff value s).2 = S (onUpdateCalls s)
  ∧ ∀ O, O ∈ members →
      falsy (Three.alphaTest (threeMaterials s !!! O)) = false
      ∨ Three.transparent (threeMaterials s !!! O) = true →
      threeMaterials (setAlphaCutoff value s).2 !!! O = threeMaterials s !!! O.
Proof.
  intros Hset Hnd Hmode.
  destruct (setAlphaCutoff_members s members value Hset Hnd) as (h' & -> & Hin & _).
  cbn. repeat split. intros O HO Hon. rewrite (Hin O HO). unfold applyCutoff.
  assert (isMASK (get_alphaMode (this s)) = false) as ->.
  { destruct (get_alphaMode (this s)) as [[]|]; done. }
  destruct Hon as [-> | ->]; [done|]. by rewrite andb_false_r.
Qed.

Lemma setAlphaCutoff_outside_MASK_witness :
  (setAlphaCutoff 0.75 blendedPair).1 = Done tt
  ∧ get_alphaCutoff (this (setAlphaCutoff 0.75 blendedPair).2) = Some 0.75%float
  ∧ onUpdateCalls (setAlphaCutoff 0.75 blendedPair).2 = S (onUpdateCalls blendedPair)
  ∧ ∀ O, O ∈ [0; 1] →
      falsy (Three.alphaTest (threeMaterials blendedPair !!! O)) = false
      ∨ Three.transparent (threeMaterials blendedPair !!! O) = true →
      threeMaterials (setAlphaCutoff 0.75 blendedPair).2 !!! O
      = threeMaterials blendedPair !!! O.
Proof.
  apply (setAlphaCutoff_outside_MASK blendedPair [0; 1] 0.75%float).
  - reflexivity.
  - apply (bool_decide_unpack _). by vm_compute.
  - discriminate.
Defined.

Lemma setAlphaMode_frame (s : State Material) (members : list loc)
    (mode : AlphaMode) (l : loc) :
  correlatedObjects (this s) = Some members →
  l ∉ members →
  leavesAlone l s (setAlphaMode mode s).2.
Proof.
  intros Hset Hl. unfold setAlphaMode.
  rewrite run_writeSource, run_getThis. cbn [this correlatedObjects].
  rewrite Hset. cbn [forOf].
  match goal with |- context [forEach members ?body ?s0] =>
    destruct (forEach_invariant
                (fun _ s' => threeMaterials s' !!! l = threeMaterials s !!! l
                             ∧ threeTextures s' = threeTextures s
                             ∧ correlatedObjects (this s') = Some members)
                body members) with (s := s0) as (s' & -> & H1 & H2 & H3)
  end.
  - intros n l' s1 Hl' (Hm1 & Ht1 & Hset1).
    assert (l' ≠ l) as Hne by (intros ->; done).
    destruct mode.
    + eexists. split; [reflexivity|]. cbn.
      by rewrite !lookup_total_insert_ne by done.
    + rewrite !run_writeMaterial, run_getThis.
      match goal with |- context [setAlphaCutoff ?v ?s2] =>
        destruct (setAlphaCutoff_run s2 members v) as (h' & -> & Hh')
      end; [done|].
      eexists. split; [reflexivity|]. cbn. repeat split; [|done].
      rewrite Hh', writeAll_lookup_outside by done. cbn.
      by rewrite !lookup_total_insert_ne by done.
    + eexists. split; [reflexivity|]. cbn.
      by rewrite !lookup_total_insert_ne by done.
  - by cbn.
  - unfold leavesAlone. cbn. by rewrite Hset.
Qed.

(** X13: none of the four material setters touches a renderer material
    outside the correlated set, any renderer texture, or the correlated set
    itself. *)
Theorem material_setters_frame (s : State Material) (members : list loc) (l : loc)
    (rgb : RGB) (value : float) (mode : AlphaMode) (flag : bool) :
  correlatedObjects (this s) = Some members →
  l ∉ members →
  leavesAlone l s (setEmissiveFactor rgb s).2
  ∧ leavesAlone l s (setAlphaCutoff value s).2
  ∧ leavesAlone l s (setAlphaMode mode s).2
  ∧ leavesAlone l s (setDoubleSided flag s).2.
Proof.
  intros Hset Hl. repeat split.
  - rewrite (setEmissiveFactor_run s members rgb Hset). cbn.
    by rewrite writeAll_lookup_outside.
  - by rewrite (setEmissiveFactor_run s members rgb Hset).
  - by rewrite (setEmissiveFactor_run s members rgb Hset).
  - destruct (setAlphaCutoff_run s members value Hset) as (h' & -> & Hh'). cbn.
    by rewrite Hh', writeAll_lookup_outside.
  - by destruct (setAlphaCutoff_run s members value Hset) as (h' & -> & Hh').
  - by destruct (setAlphaCutoff_run s members value Hset) as (h' & -> & Hh').
  - by apply (setAlphaMode_frame s members mode l Hset Hl).
  - by apply (setAlphaMode_frame s members mode l Hset Hl).
  - by apply (setAlphaMode_frame s members mode l Hset Hl).
  - rewrite (setDoubleSided_run s members flag Hset). cbn.
    by rewrite writeAll_lookup_outside.
  - by rewrite (setDoubleSided_run s members flag Hset).
  - by rewrite (setDoubleSided_run s members flag Hset).
Qed.

Lemma material_setters_frame_witness :
  leavesAlone 7 (freshMaterial 2) (setEmissiveFactor (1, 0.5, 0)%float (freshMaterial 2)).2
  ∧ leavesAlone 7 (freshMaterial 2) (setAlphaCutoff 0.5 (freshMaterial 2)).2
  ∧ leavesAlone 7 (freshMaterial 2) (setAlphaMode MASK (freshMaterial 2)).2
  ∧ leavesAlone 7 (freshMaterial 2) (setDoubleSided true (freshMaterial 2)).2.
Proof.
  apply (material_setters_frame (freshMaterial 2) [0; 1] 7); [reflexivity|].
  intros [Heq|[Heq|Hnil%elem_of_nil]%elem_of_cons]%elem_of_cons;
    [discriminate Heq | discriminate Heq | done].
Defined.

(** X14: on a document-only material (null correlated set)
    [setEmissiveFactor], [setAlphaCutoff] and [setDoubleSided] throw before
    they change anything, while [setAlphaMode] throws after it has written
    the mode into the source document; none of them fires the callback. *)
Theorem document_only_setters_state (s : State Material) (rgb : RGB)
    (value : float) (mode : AlphaMode) (flag : bool) :
  correlatedObjects (this s) = None →
  setEmissiveFactor rgb s = (Throw TypeError, s)
  ∧ setAlphaCutoff value s = (Throw TypeError, s)
  ∧ setDoubleSided flag s = (Throw TypeError, s)
  ∧ setAlphaMode mode s
    = (Throw TypeError,
       mkState {| sourceObject := set_alphaMode (Some mode) (sourceObject (this s));
                  correlatedObjects := None |}
               (threeMaterials s) (threeTextures s) (onUpdateCalls s)).
Proof.
  intros Hset. repeat split.
  - unfold setEmissiveFactor. by rewrite run_getThis, run_bind, Hset.
  - unfold setAlphaCutoff. by rewrite run_getThis, run_bind, Hset.
  - unfold setDoubleSided. by rewrite run_getThis, run_bind, Hset.
  - unfold setAlphaMode. rewrite run_writeSource, run_getThis. cbn. by rewrite Hset.
Qed.

Lemma document_only_setters_state_witness :
  setEmissiveFactor (1, 0.5, 0)%float documentOnlyBlank = (Throw TypeError, documentOnlyBlank)
  ∧ setAlphaCutoff 0.5 documentOnlyBlank = (Throw TypeError, documentOnlyBlank)
  ∧ setDoubleSided true documentOnlyBlank = (Throw TypeError, documentOnlyBlank)
  ∧ setAlphaMode BLEND documentOnlyBlank
    = (Throw TypeError,
       mkState {| sourceObject :=
                    set_alphaMode (Some BLEND) (sourceObject (this documentOnlyBlank));
                  correlatedObjects := None |}
               (threeMaterials documentOnlyBlank) (threeTextures documentOnlyBlank)
               (onUpdateCalls documentOnlyBlank)).
Proof.
  apply (document_only_setters_state documentOnlyBlank (1, 0.5, 0)%float 0.5%float
           BLEND true).
  reflexivity.
Defined.

Lemma setter_throws_unchanged (s : State Material) :
  correlatedObjects (this s) = None →
  ∀ rgb flag, setEmissiveFactor rgb s = (Throw TypeError, s)
              ∧ setDoubleSided flag s = (Throw TypeError, s).
Proof.
  intros Hset rgb flag. split.
  - unfold setEmissiveFactor. by rewrite run_getThis, run_bind, Hset.
  - unfold setDoubleSided. by rewrite run_getThis, run_bind, Hset.
Qed.

(** X15: [setEmissiveFactor] and [setDoubleSided] commute: in either order
    they leave the same facade, source document, renderer objects and number
    of callback invocations. *)
Theorem setEmissiveFactor_setDoubleSided_commute (s : State Material) (rgb : RGB)
    (flag : bool) :
  sameObservableState (setDoubleSided flag (setEmissiveFactor rgb s).2).2
                      (setEmissiveFactor rgb (setDoubleSided flag s).2).2
  ∧ onUpdateCalls (setDoubleSided flag (setEmissiveFactor rgb s).2).2
    = onUpdateCalls (setEmissiveFactor rgb (setDoubleSided flag s).2).2.
Proof.
  destruct (correlatedObjects (this s)) as [members|] eqn:Hset.
  - rewrite (setEmissiveFactor_run s members rgb Hset),
      (setDoubleSided_run s members flag Hset). cbn [snd].
    rewrite (setDoubleSided_run _ members flag) by done.
    rewrite (setEmissiveFactor_run _ members rgb) by done. cbn.
    repeat split. intros l. cbn [threeMaterials]. rewrite !writeAll_lookup by done.
    by destruct (decide (l ∈ members)).
  - destruct (setter_throws_unchanged s Hset rgb flag) as [He Hd].
    rewrite He, Hd. cbn [snd]. rewrite He, Hd. by repeat split.
Qed.

(** X16: the last [setEmissiveFactor] wins: after a call with [c1] and a call
    with [c2] the facade, the source document and every renderer object are
    as after the call with [c2] alone. *)
Theorem setEmissiveFactor_last_wins (s : State Material) (c1 c2 : RGB) :
  sameObservableState (setEmissiveFactor c2 (setEmissiveFactor c1 s).2).2
                      (setEmissiveFactor c2 s).2.
Proof.
  destruct (correlatedObjects (this s)) as [members|] eqn:Hset.
  - rewrite (setEmissiveFactor_run s members c1 Hset),
      (setEmissiveFactor_run s members c2 Hset). cbn [snd].
    rewrite (setEmissiveFactor_run _ members c2) by done. cbn.
    repeat split. intros l. cbn [threeMaterials]. rewrite !writeAll_lookup by done.
    by destruct (decide (l ∈ members)).
  - destruct (setter_throws_unchanged s Hset c1 true) as [He1 _].
    destruct (setter_throws_unchanged s Hset c2 true) as [He2 _].
    rewrite He1. cbn [snd]. rewrite He2. by repeat split.
Qed.

(** X17: with two or more correlated renderer objects and a stored cutoff
    (or the default 0.5) that is not zero, [setAlphaMode('MASK')] leaves every
    correlated object's alpha-test threshold at that cutoff, whatever the
    thresholds were, and records it in the source document. *)
Theorem setAlphaMode_MASK_lands_on_several (s : State Material) (members : list loc) :
  correlatedObjects (this s) = Some members →
  NoDup members →
  2 ≤ length members →
  falsy (cutoffOrDefault (get_alphaCutoff (this s))) = false →
  (setAlphaMode MASK s).1 = Done tt
  ∧ get_alphaCutoff (this (setAlphaMode MASK s).2)
    = Some (cutoffOrDefault (get_alphaCutoff (this s)))
  ∧ ∀ O, O ∈ members →
      Three.alphaTest (threeMaterials (setAlphaMode MASK s).2 !!! O)
      = cutoffOrDefault (get_alphaCutoff (this s)).
Proof.
  intros Hset Hnd Hlen Hv.
  by destruct (setAlphaMode_MASK_several_objects s members Hset Hnd Hlen Hv)
    as (s' & -> & _ & Hcut & Hall).
Qed.

Lemma setAlphaMode_MASK_lands_on_several_witness :
  (setAlphaMode MASK (freshMaterial 2)).1 = Done tt
  ∧ get_alphaCutoff (this (setAlphaMode MASK (freshMaterial 2)).2)
    = Some (cutoffOrDefault (get_alphaCutoff (this (freshMaterial 2))))
  ∧ ∀ O, O ∈ [0; 1] →
      Three.alphaTest (threeMaterials (setAlphaMode MASK (freshMaterial 2)).2 !!! O)
      = cutoffOrDefault (get_alphaCutoff (this (freshMaterial 2))).
Proof.
  apply (setAlphaMode_MASK_lands_on_several (freshMaterial 2) [0; 1]).
  - reflexivity.
  - apply (bool_decide_unpack _). by vm_compute.
  - cbn. lia.
  - reflexivity.
Defined.

(** ** TextureInfo.setTexture: what it writes and what it leaves alone *)

(** X18: on a slot with correlated materials, [setTexture(texture)] stores
    [texture] in the facade and, on every correlated renderer object, puts the
    renderer texture of [texture] (or null) into the property of the slot's
    usage kind, raises the dirty flag and leaves the properties of the other
    four usage kinds as they were; the callback fires once. *)
Theorem setTexture_assigns (s : State TextureInfo) (members : list loc)
    (tex : option Texture) :
  materials (this s) = Some members →
  (setTexture tex s).1 = Done tt
  ∧ texture (this (setTexture tex s).2) = tex
  ∧ onUpdateCalls (setTexture tex s).2 = S (onUpdateCalls s)
  ∧ ∀ O, O ∈ members →
      slot (usage (this s)) (threeMaterials (setTexture tex s).2 !!! O)
      = threeTextureOf tex
      ∧ Three.needsUpdate (threeMaterials (setTexture tex s).2 !!! O) = true
      ∧ ∀ u, u ≠ usage (this s) →
          slot u (threeMaterials (setTexture tex s).2 !!! O)
          = slot u (threeMaterials s !!! O).
Proof.
  intros Hms. rewrite setTexture_run. cbn. rewrite Hms. repeat split.
  - rewrite writeAll_lookup by (intros m; by destruct (usage (this s))).
    rewrite decide_True by done. by destruct (usage (this s)).
  - rewrite writeAll_lookup by (intros m; by destruct (usage (this s))).
    by rewrite decide_True.
  - intros u Hu.
    rewrite writeAll_lookup by (intros m; by destruct (usage (this s))).
    rewrite decide_True by done. by destruct (usage (this s)), u.
Qed.

Lemma setTexture_assigns_witness :
  (setTexture (Some (textureAt 5)) baseInfoOverNormalMapped).1 = Done tt
  ∧ Three.map (threeMaterials (setTexture (Some (textureAt 5)) baseInfoOverNormalMapped).2
               !!! 1) = Some 5
  ∧ Three.normalMap
      (threeMaterials (setTexture (Some (textureAt 5)) baseInfoOverNormalMapped).2 !!! 1)
    = Some 9.
Proof.
  destruct (setTexture_assigns baseInfoOverNormalMapped [0; 1] (Some (textureAt 5)) eq_refl)
    as (Hdone & _ & _ & Hall).
  destruct (Hall 1) as (Hslot & _ & Hothers); [right; left|].
  split; [exact Hdone|]. split; [exact Hslot|].
  apply (Hothers TextureUsage.Normal). discriminate.
Defined.

(** X19: [setTexture] leaves alone every renderer material outside the
    slot's correlated set and every renderer texture other than the one
    behind its argument; the slot's usage kind and correlated set stay. *)
Theorem setTexture_frame (s : State TextureInfo) (tex : option Texture) (l a : loc) :
  l ∉ default [] (materials (this s)) →
  threeTextureOf tex ≠ Some a →
  threeMaterials (setTexture tex s).2 !!! l = threeMaterials s !!! l
  ∧ threeTextures (setTexture tex s).2 !!! a = threeTextures s !!! a
  ∧ usage (this (setTexture tex s).2) = usage (this s)
  ∧ materials (this (setTexture tex s).2) = materials (this s).
Proof.
  intros Hl Ha. rewrite setTexture_run. cbn. repeat split.
  - destruct (materials (this s)) as [members|]; [|done].
    by rewrite writeAll_lookup_outside.
  - destruct (threeTextureOf tex) as [a'|]; [|done].
    rewrite lookup_total_insert_ne; [done|]. intros ->. by apply Ha.
Qed.

Lemma setTexture_frame_witness :
  threeMaterials (setTexture (Some (textureAt 5)) baseInfoOverNormalMapped).2 !!! 7
  = threeMaterials baseInfoOverNormalMapped !!! 7
  ∧ threeTextures (setTexture (Some (textureAt 5)) baseInfoOverNormalMapped).2 !!! 9
    = threeTextures baseInfoOverNormalMapped !!! 9
  ∧ usage (this (setTexture (Some (textureAt 5)) baseInfoOverNormalMapped).2)
    = usage (this baseInfoOverNormalMapped)
  ∧ materials (this (setTexture (Some (textureAt 5)) baseInfoOverNormalMapped).2)
    = materials (this baseInfoOverNormalMapped).
Proof.
  apply (setTexture_frame baseInfoOverNormalMapped (Some (textureAt 5)) 7 9).
  - cbn. intros [Heq|[Heq|Hnil%elem_of_nil]%elem_of_cons]%elem_of_cons;
      [discriminate Heq | discriminate Heq | done].
  - cbn. intros Heq. discriminate Heq.
Defined.

(** ** The texture slots of the Material constructor *)

Lemma collect_from_declared (i : GLTFTextureInfo) (set : list loc)
    (maps : list (option loc)) :
  ∃ i', (foldl collectStep (Some i, set) maps).1 = Some i'
        ∧ firstValue (foldl collectStep (Some i, set) maps).2
          = head (set ++ omap id maps)
        ∧ (Forall is_Some maps → i' = i)
        ∧ (¬ Forall is_Some maps → i' = noTexture).
Proof.
  revert i set. induction maps as [|m rest IH]; intros i set.
  - exists i. cbn. rewrite app_nil_r.
    split; [done|]. split; [done|]. split; [done|].
    intros Hnot. destruct Hnot. constructor.
  - destruct m as [m|].
    + destruct (IH i (setAdd m set)) as (i' & Hinfo & Htex & Hall & Hmiss).
      exists i'.
      change (foldl collectStep (Some i, set) (Some m :: rest))
        with (foldl collectStep (Some i, setAdd m set) rest).
      split; [done|]. split; [|split].
      * rewrite Htex. cbn. unfold setAdd.
        destruct (decide (m ∈ set)) as [Hin|Hnin].
        -- destruct set as [|x set']; [by apply elem_of_nil in Hin | done].
        -- by destruct set.
      * intros Hf. apply Hall. by inversion Hf.
      * intros Hnot. apply Hmiss. intros Hf. apply Hnot. by constructor.
    + destruct (IH {| index := (-1)%Z |} set) as (i' & Hinfo & Htex & Hall & Hmiss).
      exists i'.
      change (foldl collectStep (Some i, set) (None :: rest))
        with (foldl collectStep (Some {| index := (-1)%Z |}, set) rest).
      split; [done|]. split; [|split].
      * by rewrite Htex.
      * intros Hf. inversion Hf as [|? ? Hsome]. by destruct Hsome.
      * intros _. destruct (decide (Forall is_Some rest)) as [Hf|Hnf].
        -- by apply Hall.
        -- by apply Hmiss.
Qed.

Lemma fromSets_fold (h : gmap loc Three.MeshStandardMaterial) (members : list loc)
    (n o e : option GLTFTextureInfo * list loc) :
  foldl (fun '(n, o, e) l =>
           let m := h !!! l in
           (collectStep n (Three.normalMap m),
            collectStep o (Three.aoMap m),
            collectStep e (Three.emissiveMap m)))
        (n, o, e) members
  = (foldl collectStep n ((fun l => slot TextureUsage.Normal (h !!! l)) <$> members),
     foldl collectStep o ((fun l => slot TextureUsage.Occlusion (h !!! l)) <$> members),
     foldl collectStep e ((fun l => slot TextureUsage.Emissive (h !!! l)) <$> members)).
Proof.
  revert n o e. induction members as [|l rest IH]; intros n o e; [done|].
  cbn. by rewrite IH.
Qed.

Lemma fromSets_slot (n o e : option GLTFTextureInfo)
    (h : gmap loc Three.MeshStandardMaterial) (members : list loc)
    (u : TextureUsage.t) :
  isMaterialSlot u = true →
  slotArgs (constructTextureInfosFromSets n o e h members) u
  = {| argTexture :=
         firstValue (foldl collectStep (declaredSlot n o e u, [])
                           ((fun l => slot u (h !!! l)) <$> members)).2;
       argUsage := u;
       argInfo :=
         (foldl collectStep (declaredSlot n o e u, [])
                ((fun l => slot u (h !!! l)) <$> members)).1 |}.
Proof.
  intros Hu. unfold constructTextureInfosFromSets. rewrite fromSets_fold.
  by destruct u.
Qed.

(** X20: in the version of the constructor that collects the maps in sets,
    for a non-empty correlated set, a slot keeps the texture-info block that
    the source fragment declares only if every correlated renderer material
    has a map for it; if the slot is undeclared or a single material lacks
    the map, the block handed to the [TextureInfo] is [{index: -1}]. *)
Theorem fromSets_info (n o e : option GLTFTextureInfo)
    (h : gmap loc Three.MeshStandardMaterial) (members : list loc)
    (u : TextureUsage.t) :
  isMaterialSlot u = true →
  members ≠ [] →
  argInfo (slotArgs (constructTextureInfosFromSets n o e h members) u)
  = match declaredSlot n o e u with
    | Some d =>
        if decide (Forall (fun l => is_Some (slot u (h !!! l))) members)
        then Some d else Some noTexture
    | None => Some noTexture
    end.
Proof.
  intros Hu Hne. rewrite fromSets_slot by done. cbn [argInfo].
  destruct (declaredSlot n o e u) as [d|].
  - destruct (collect_from_declared d [] ((fun l => slot u (h !!! l)) <$> members))
      as (i' & -> & _ & Hall & Hmiss).
    assert (Forall is_Some ((fun l => slot u (h !!! l)) <$> members)
            ↔ Forall (fun l => is_Some (slot u (h !!! l))) members) as Heqv
      by apply Forall_fmap.
    destruct (decide (Forall _ members)) as [Hf|Hnf].
    + f_equal. apply Hall. by apply Heqv.
    + f_equal. apply Hmiss. intros Hf. apply Hnf. by apply Heqv.
  - destruct members as [|l rest]; [done|].
    change (foldl collectStep (None, []) ((fun l => slot u (h !!! l)) <$> l :: rest))
      with (foldl collectStep (Some {| index := (-1)%Z |}, [])
                  ((fun l => slot u (h !!! l)) <$> rest)).
    destruct (collect_from_declared {| index := (-1)%Z |} []
                ((fun l => slot u (h !!! l)) <$> rest)) as (i' & -> & _ & Hall & Hmiss).
    f_equal. destruct (decide (Forall is_Some ((fun l => slot u (h !!! l)) <$> rest))).
    + by apply Hall.
    + by apply Hmiss.
Qed.

Lemma fromSets_info_witness :
  argInfo (slotArgs (constructTextureInfosFromSets (Some {| index := 3 |}) None None
                       secondHasNormalMap [0; 1]) TextureUsage.Normal)
  = Some noTexture.
Proof.
  rewrite (fromSets_info (Some {| index := 3 |}) None None secondHasNormalMap [0; 1]
             TextureUsage.Normal); [|reflexivity|discriminate].
  reflexivity.
Defined.

(** X21: in the same version, the renderer texture handed to the
    [TextureInfo] of a slot is the first map found among the correlated
    renderer materials, in the order of the set, when the source fragment
    declares the slot; for an undeclared slot the first material is skipped
    and the first map found among the others is handed over (together with
    [{index: -1}]). *)
Theorem fromSets_texture (n o e : option GLTFTextureInfo)
    (h : gmap loc Three.MeshStandardMaterial) (members : list loc)
    (u : TextureUsage.t) :
  isMaterialSlot u = true →
  argTexture (slotArgs (constructTextureInfosFromSets n o e h members) u)
  = head (omap (fun l => slot u (h !!! l))
               match declaredSlot n o e u with
               | Some _ => members
               | None => tail members
               end).
Proof.
  intros Hu. rewrite fromSets_slot by done. cbn [argTexture].
  assert (∀ l : list loc, omap id ((fun l => slot u (h !!! l)) <$> l)
                          = omap (fun l => slot u (h !!! l)) l) as Homap.
  { intros l. induction l as [|x l IH]; [done|]. cbn. rewrite IH.
    by destruct (slot u (h !!! x)). }
  destruct (declaredSlot n o e u) as [d|].
  - destruct (collect_from_declared d [] ((fun l => slot u (h !!! l)) <$> members))
      as (i' & _ & -> & _ & _).
    by rewrite app_nil_l, Homap.
  - destruct members as [|l rest]; [done|].
    change (foldl collectStep (None, []) ((fun l => slot u (h !!! l)) <$> l :: rest))
      with (foldl collectStep (Some {| index := (-1)%Z |}, [])
                  ((fun l => slot u (h !!! l)) <$> rest)).
    destruct (collect_from_declared {| index := (-1)%Z |} []
                ((fun l => slot u (h !!! l)) <$> rest)) as (i' & _ & -> & _ & _).
    by rewrite app_nil_l, Homap.
Qed.

Lemma fromSets_texture_witness :
  argTexture (slotArgs (constructTextureInfosFromSets None None None
                          bothHaveNormalMap [0; 1]) TextureUsage.Normal)
  = Some 9.
Proof.
  rewrite (fromSets_texture None None None bothHaveNormalMap [0; 1]
             TextureUsage.Normal); reflexivity.
Defined.

Lemma verifyMaps_nil (first member : Three.MeshStandardMaterial) :
  verifyMaps first member = []
  ↔ ∀ u, isMaterialSlot u = true → slot u member = slot u first.
Proof.
  unfold verifyMaps. split.
  - intros Hnil u Hu.
    destruct (decide (Three.normalMap member = Three.normalMap first)); [|done].
    destruct (decide (Three.aoMap member = Three.aoMap first)); [|done].
    destruct (decide (Three.emissiveMap member = Three.emissiveMap first)); [|done].
    by destruct u.
  - intros Hall.
    rewrite decide_True by apply (Hall TextureUsage.Normal eq_refl).
    rewrite decide_True by apply (Hall TextureUsage.Occlusion eq_refl).
    by rewrite decide_True by apply (Hall TextureUsage.Emissive eq_refl).
Qed.

(** X22: in scene-graph/material.ts the constructor, given a non-empty
    correlated set, writes nothing to the console exactly when every
    correlated renderer material has the same normal, occlusion and emissive
    map as the first one; the slots themselves are built from the first
    material alone. *)
Theorem constructTextureInfos_silent_iff (n o e : option GLTFTextureInfo)
    (h : gmap loc Three.MeshStandardMaterial) (first : loc) (rest : list loc) :
  ∃ r log,
    constructTextureInfos n o e h (first :: rest) = Done (r, log)
    ∧ r = {| normalTextureArgs :=
               {| argTexture := (reconcile n (Three.normalMap (h !!! first))).1;
                  argUsage := TextureUsage.Normal;
                  argInfo := (reconcile n (Three.normalMap (h !!! first))).2 |};
             occlusionTextureArgs :=
               {| argTexture := (reconcile o (Three.aoMap (h !!! first))).1;
                  argUsage := TextureUsage.Occlusion;
                  argInfo := (reconcile o (Three.aoMap (h !!! first))).2 |};
             emissiveTextureArgs :=
               {| argTexture := (reconcile e (Three.emissiveMap (h !!! first))).1;
                  argUsage := TextureUsage.Emissive;
                  argInfo := (reconcile e (Three.emissiveMap (h !!! first))).2 |} |}
    ∧ (log = []
       ↔ ∀ l u, l ∈ rest → isMaterialSlot u = true →
           slot u (h !!! l) = slot u (h !!! first)).
Proof.
  eexists _, _. split; [reflexivity|]. split; [reflexivity|].
  cbn [fmap list_fmap concat].
  assert (verifyMaps (h !!! first) (h !!! first) = []) as ->
    by (by apply verifyMaps_nil).
  cbn [app]. induction rest as [|l rest IH]; cbn.
  - split; [|done]. intros _ l u Hl. by apply elem_of_nil in Hl.
  - split.
    + intros [Hl Hrest]%app_nil l' u [->|Hin]%elem_of_cons Hu.
      * by apply verifyMaps_nil.
      * by apply IH.
    + intros Hall. apply app_nil. split.
      * apply verifyMaps_nil. intros u Hu. apply Hall; [left | done].
      * apply IH. intros l' u Hl' Hu. apply Hall; [by right | done].
Qed.

(** X23: the two versions of the constructor build the same slot (renderer
    texture and texture-info block) whenever all correlated renderer
    materials have the same map for it and the source fragment declares the
    slot, and also for an undeclared slot when there is a single correlated
    material or the materials have no map for it. *)
Theorem constructors_agree_on_homogeneous (n o e : option GLTFTextureInfo)
    (h : gmap loc Three.MeshStandardMaterial) (first : loc) (rest : list loc)
    (u : TextureUsage.t) :
  isMaterialSlot u = true →
  (∀ l, l ∈ rest → slot u (h !!! l) = slot u (h !!! first)) →
  is_Some (declaredSlot n o e u) ∨ rest = [] ∨ slot u (h !!! first) = None →
  ∃ r log,
    constructTextureInfos n o e h (first :: rest) = Done (r, log)
    ∧ slotArgs r u
      = slotArgs (constructTextureInfosFromSets n o e h (first :: rest)) u.
Proof.
  intros Hu Hsame Hcase. eexists _, _. split; [reflexivity|].
  assert (slotArgs (constructTextureInfosFromSets n o e h (first :: rest)) u
          = {| argTexture :=
                 head (omap (fun l => slot u (h !!! l))
                            match declaredSlot n o e u with
                            | Some _ => first :: rest
                            | None => tail (first :: rest)
                            end);
               argUsage := u;
               argInfo :=
                 match declaredSlot n o e u with
                 | Some d =>
                     if decide (Forall (fun l => is_Some (slot u (h !!! l)))
                                       (first :: rest))
                     then Some d else Some noTexture
                 | None => Some noTexture
                 end |}) as ->.
  { pose proof (fromSets_texture n o e h (first :: rest) u Hu) as Htex.
    pose proof (fromSets_info n o e h (first :: rest) u Hu) as Hinfo.
    rewrite fromSets_slot in Htex, Hinfo |- * by done.
    cbn [argTexture argInfo] in Htex, Hinfo. rewrite Htex, Hinfo by done. done. }
  assert (omap (fun l => slot u (h !!! l)) rest
          = match slot u (h !!! first) with
            | Some m => replicate (length rest) m
            | None => []
            end) as Hrest.
  { induction rest as [|l rest IH]; [by destruct (slot u (h !!! first))|].
    cbn. rewrite (Hsame l) by left. rewrite IH.
    - by destruct (slot u (h !!! first)).
    - intros l' Hl'. apply Hsame. by right.
    - destruct Hcase as [?|[?|?]]; [by left | done | by right; right]. }
  assert (slotArgs
            {| normalTextureArgs :=
                 {| argTexture := (reconcile n (Three.normalMap (h !!! first))).1;
                    argUsage := TextureUsage.Normal;
                    argInfo := (reconcile n (Three.normalMap (h !!! first))).2 |};
               occlusionTextureArgs :=
                 {| argTexture := (reconcile o (Three.aoMap (h !!! first))).1;
                    argUsage := TextureUsage.Occlusion;
                    argInfo := (reconcile o (Three.aoMap (h !!! first))).2 |};
               emissiveTextureArgs :=
                 {| argTexture := (reconcile e (Three.emissiveMap (h !!! first))).1;
                    argUsage := TextureUsage.Emissive;
                    argInfo := (reconcile e (Three.emissiveMap (h !!! first))).2 |} |} u
          = {| argTexture := (reconcile (declaredSlot n o e u) (slot u (h !!! first))).1;
               argUsage := u;
               argInfo := (reconcile (declaredSlot n o e u) (slot u (h !!! first))).2 |})
    as Hleft by (by destruct u).
  cbn zeta. rewrite Hleft. unfold reconcile.
  assert (omap (fun l => slot u (h !!! l)) (first :: rest)
          = match slot u (h !!! first) with
            | Some m => m :: omap (fun l => slot u (h !!! l)) rest
            | None => omap (fun l => slot u (h !!! l)) rest
            end) as Hcons by done.
  destruct (declaredSlot n o e u) as [d|] eqn:Hd.
  - rewrite Hcons. destruct (slot u (h !!! first)) as [m|] eqn:Hfirst.
    + rewrite decide_True; [done|]. apply Forall_cons. split; [by rewrite Hfirst|].
      apply Forall_forall. intros l Hl. by rewrite (Hsame l Hl).
    + rewrite Hrest. rewrite decide_False; [done|].
      intros [Hsome _]%Forall_cons. rewrite Hfirst in Hsome. by destruct Hsome.
  - cbn [tail]. rewrite Hrest.
    destruct Hcase as [[? ?]|[->| ->]]; [done | | done].
    by destruct (slot u (h !!! first)).
Qed.

Lemma constructors_agree_on_homogeneous_witness :
  ∃ r log,
    constructTextureInfos (Some {| index := 3 |}) None None bothHaveNormalMap (0 :: [1])
    = Done (r, log)
    ∧ slotArgs r TextureUsage.Normal
      = slotArgs (constructTextureInfosFromSets (Some {| index := 3 |}) None None
                    bothHaveNormalMap (0 :: [1])) TextureUsage.Normal.
Proof.
  apply (constructors_agree_on_homogeneous (Some {| index := 3 |}) None None
           bothHaveNormalMap 0 [1] TextureUsage.Normal).
  - reflexivity.
  - intros l [->|Hnil%elem_of_nil]%elem_of_cons; [reflexivity | done].
  - left. by eexists.
Defined.

(** ** The base element of the 3DOM facade *)

(** X24: [toJSON] of a 3DOM element carries the element's id, and carries a
    name exactly when the source object has a non-empty name, which it then
    hands over unchanged; an empty name is serialized like an absent one. *)
Theorem toJSON_name (uniqueId : nat) (elementName : option string)
    (correlated : option (list loc)) (n : string) :
  ThreeDOM.serializedId (ThreeDOM.toJSON (ThreeDOM.new uniqueId elementName correlated))
  = ThreeDOM.internalID (ThreeDOM.new uniqueId elementName correlated)
  ∧ (ThreeDOM.serializedName
       (ThreeDOM.toJSON (ThreeDOM.new uniqueId elementName correlated)) = Some n
     ↔ elementName = Some n ∧ n ≠ "")
  ∧ ThreeDOM.serializedName (ThreeDOM.toJSON (ThreeDOM.new uniqueId (Some "") correlated))
    = ThreeDOM.serializedName (ThreeDOM.toJSON (ThreeDOM.new uniqueId None correlated)).
Proof.
  split; [done|]. split; [|done]. cbn. unfold ThreeDOM.name. cbn.
  destruct elementName as [m|]; [|by split; [|intros [? _]]].
  destruct (decide (m = "")) as [->|Hne].
  - split; [done|]. by intros [[= <-] ?].
  - split; [by intros [= <-] | by intros [[= <-] _]].
Qed.

(** ** Setters called again with another argument *)

(** X25: the last [setDoubleSided] wins: after a call with [flag1] and a
    call with [flag2] the facade, the source document and every renderer
    object are as after the call with [flag2] alone. *)
Theorem setDoubleSided_last_wins (s : State Material) (flag1 flag2 : bool) :
  sameObservableState (setDoubleSided flag2 (setDoubleSided flag1 s).2).2
                      (setDoubleSided flag2 s).2.
Proof.
  destruct (correlatedObjects (this s)) as [members|] eqn:Hset.
  - rewrite (setDoubleSided_run s members flag1 Hset),
      (setDoubleSided_run s members flag2 Hset). cbn [snd].
    rewrite (setDoubleSided_run _ members flag2) by done.
    repeat split. intros l. cbn.
    rewrite !writeAll_lookup by done. by destruct (decide (l ∈ members)).
  - destruct (setter_throws_unchanged s Hset (0, 0, 0)%float flag1) as [_ Hd1].
    destruct (setter_throws_unchanged s Hset (0, 0, 0)%float flag2) as [_ Hd2].
    rewrite Hd1. cbn [snd]. rewrite Hd2. by repeat split.
Qed.

